(** * pok-scorer: the calibration script of the image detector

    A shallow embedding of [image-detector/scripts/calibrate.py]:
    the colour classifier ([ColorClassifier.is_red], [is_blue]), the
    scorer ([PokDetectorCalibrator.calculate_score]), the tracking of
    the best parameters during the global search ([objective_function]),
    the start of [optimize] after the search ends, the local
    hill-climbing loop and the rescaling of the spatial parameters.

    Conventions.
    - Python [int] is [Z]; lengths and loop counters are [nat].
    - Python and numpy floats are exact rationals [Q], compared with
      [Qeq]; [float('inf')] and [float('-inf')] get a constructor of
      their own where the source uses them.
    - [np.sqrt] is a parameter [np_sqrt : Z -> Q] of the scorer; the
      theorems say which of its properties they use.
    - A Python exception is the [Raise] case of [result]. *)

From Stdlib Require Import String ZArith QArith Qabs List Bool Lia Lqa.
From Stdlib Require Import Permutation.
From Stdlib Require Floats Uint63.
Import ListNotations.

Local Open Scope Z_scope.

(** ** Exceptions and the error monad *)

Inductive exn : Type :=
| ZeroDivisionError
| ValueError
| IndexError
| OverflowError.

Inductive result (A : Type) : Type :=
| Ok (a : A)
| Raise (e : exn).

Arguments Ok {A} a.
Arguments Raise {A} e.

Definition bind {A B : Type} (m : result A) (k : A -> result B) : result B :=
  match m with
  | Ok a => k a
  | Raise e => Raise e
  end.

Notation "x <- m ;; k" := (bind m (fun x => k))
  (at level 61, m at next level, right associativity).
Notation "' p <- m ;; k" := (bind m (fun p => k))
  (at level 61, p pattern, m at next level, right associativity).

(** A [for] loop whose body may raise. *)
Fixpoint for_each {A S : Type} (body : S -> A -> result S) (l : list A) (s : S)
  : result S :=
  match l with
  | [] => Ok s
  | a :: l' => s' <- body s a ;; for_each body l' s'
  end.

(** ** Numbers *)

Definition Qltb (a b : Q) : bool := negb (Qle_bool b a).

Definition Qnat (n : nat) : Q := inject_Z (Z.of_nat n).

(** [int(x)] on a float: truncation toward zero. *)
Definition py_int (q : Q) : Z := Z.quot (Qnum q) (Zpos (Qden q)).

Definition Qsum (l : list Q) : Q := fold_right Qplus 0%Q l.

(** [np.mean] of a non-empty list. *)
Definition np_mean (l : list Q) : Q := (Qsum l / Qnat (length l))%Q.

(** A square root to run the scorer with: exact on the squares,
    linear between two of them. *)
Definition sqrt_interp (z : Z) : Q :=
  if z <=? 0 then 0%Q
  else
    let k := Z.sqrt z in
    (inject_Z k + inject_Z (z - k * k) / inject_Z (2 * k + 1))%Q.

(** ** Python lists *)

(** [l.pop(j)] for [0 <= j]: the element and the list without it. *)
Definition remove_nth {A : Type} (j : nat) (l : list A) : list A :=
  firstn j l ++ skipn (S j) l.

Definition pop {A : Type} (l : list A) (j : nat) : result (A * list A) :=
  match nth_error l j with
  | Some x => Ok (x, remove_nth j l)
  | None => Raise IndexError
  end.

(** [l.remove(x)]: drops the first element equal to [x], [ValueError]
    when there is none. *)
Fixpoint list_remove {A : Type} (eq_dec : forall a b : A, {a = b} + {a <> b})
  (x : A) (l : list A) : result (list A) :=
  match l with
  | [] => Raise ValueError
  | y :: l' =>
      if eq_dec x y then Ok l'
      else l'' <- list_remove eq_dec x l' ;; Ok (y :: l'')
  end.

(** [enumerate(l)] *)
Definition enumerate {A : Type} (l : list A) : list (nat * A) :=
  combine (seq 0 (length l)) l.

(** ** The scorer: [PokDetectorCalibrator.calculate_score] *)

Module Scorer.

(** An annotated pok of the dataset file: [{x, y, color}]. *)
Record Annotation : Type := mkAnnotation {
  ann_x : Z;
  ann_y : Z;
  ann_color : string
}.

(** A detection returned by [detect_poks]: [{x, y, radius, color}]. *)
Record Detection : Type := mkDetection {
  det_x : Z;
  det_y : Z;
  det_radius : Z;
  det_color : string
}.

(** An entry of [matched]. *)
Record Match : Type := mkMatch {
  distance : Q;
  color_match : bool
}.

(** The dictionary [calculate_score] returns. *)
Record ScoreRecord : Type := mkScore {
  precision : Q;
  recall : Q;
  f1 : Q;
  color_accuracy : Q;
  avg_position_error : Q;
  true_positives : nat;
  false_positives : nat;
  false_negatives : nat;
  combined_score : Q
}.

(** The three lists of the greedy matching loop. *)
Record MatchState : Type := mkState {
  matched : list Match;
  unmatched_detections : list Detection;
  unmatched_annotations : list Annotation
}.

Definition Annotation_eq_dec (a b : Annotation) : {a = b} + {a <> b}.
Proof.
  decide equality; [apply string_dec | apply Z.eq_dec | apply Z.eq_dec].
Defined.

Section WithSqrt.

Variable np_sqrt : Z -> Q.

(** [np.sqrt((det['x'] - ann['x'])**2 + (det['y'] - ann['y'])**2)] *)
Definition dist (det : Detection) (ann : Annotation) : Q :=
  np_sqrt ((det_x det - ann_x ann) ^ 2 + (det_y det - ann_y ann) ^ 2).

(** The pair [(best_idx, best_dist)] of the inner loop: [None] is
    [(-1, float('inf'))], [Some (j, d)] is [(j, d)]. *)
Definition Best : Type := option (nat * Q).

(** [dist < best_dist] *)
Definition lt_best (d : Q) (best : Best) : bool :=
  match best with
  | None => true
  | Some (_, bd) => Qltb d bd
  end.

(** The body of [for j, det in enumerate(unmatched_detections)]. *)
Definition best_step (threshold : Z) (ann : Annotation) (best : Best)
  (jd : nat * Detection) : Best :=
  let '(j, det) := jd in
  let d := dist det ann in
  if Qltb d (inject_Z threshold) && lt_best d best then Some (j, d) else best.

Definition find_best (threshold : Z) (ann : Annotation) (pool : list Detection)
  : Best :=
  fold_left (best_step threshold ann) (enumerate pool) None.

(** The body of [for ann in annotations]. *)
Definition match_step (threshold : Z) (st : MatchState) (ann : Annotation)
  : result MatchState :=
  match find_best threshold ann (unmatched_detections st) with
  | Some (best_idx, best_dist) =>
      '(det, pool) <- pop (unmatched_detections st) best_idx ;;
      let cm := String.eqb (ann_color ann) (det_color det) in
      let matched' := matched st ++ [mkMatch best_dist cm] in
      anns <- list_remove Annotation_eq_dec ann (unmatched_annotations st) ;;
      Ok (mkState matched' pool anns)
  | None => Ok st
  end.

Definition greedy_matching (threshold : Z) (detections : list Detection)
  (annotations : list Annotation) : result MatchState :=
  for_each (match_step threshold) annotations
    (mkState [] detections annotations).

(** [avg_pos_error / threshold]: with no match [avg_pos_error] is the
    integer [threshold] itself and Python's division raises on zero;
    with a match it is a numpy float, and [threshold] is positive then
    (see [matched_threshold_pos]). *)
Definition div_threshold (ms : list Match) (avg_pos_error : Q) (threshold : Z)
  : result Q :=
  match ms with
  | [] =>
      if threshold =? 0 then Raise ZeroDivisionError
      else Ok (avg_pos_error / inject_Z threshold)%Q
  | _ :: _ => Ok (avg_pos_error / inject_Z threshold)%Q
  end.

Definition metrics (threshold : Z) (st : MatchState) : result ScoreRecord :=
  let tp := length (matched st) in
  let fp := length (unmatched_detections st) in
  let fn := length (unmatched_annotations st) in
  let precision :=
    if (0 <? tp + fp)%nat then (Qnat tp / Qnat (tp + fp))%Q else 0%Q in
  let recall :=
    if (0 <? tp + fn)%nat then (Qnat tp / Qnat (tp + fn))%Q else 0%Q in
  let f1 :=
    if Qltb 0 (precision + recall)
    then (2 * (precision * recall) / (precision + recall))%Q else 0%Q in
  let color_correct := length (filter color_match (matched st)) in
  let color_accuracy :=
    if (0 <? tp)%nat then (Qnat color_correct / Qnat tp)%Q else 0%Q in
  let avg_pos_error :=
    match matched st with
    | [] => inject_Z threshold
    | _ :: _ => np_mean (map distance (matched st))
    end in
  ratio <- div_threshold (matched st) avg_pos_error threshold ;;
  let combined_score := (f1 * 50 + color_accuracy * 40 - ratio * 10)%Q in
  Ok (mkScore precision recall f1 color_accuracy avg_pos_error tp fp fn
        combined_score).

Definition calculate_score (threshold : Z) (detections : list Detection)
  (annotations : list Annotation) : result ScoreRecord :=
  st <- greedy_matching threshold detections annotations ;;
  metrics threshold st.

(** *** The matching as the specification words it

    For each annotation, in input order: the nearest detection not yet
    matched and within the threshold, the first one among equally near
    ones; no such detection, and the annotation is a false negative. *)

Definition within (threshold : Z) (det : Detection) (ann : Annotation) : Prop :=
  (dist det ann < inject_Z threshold)%Q.

Definition nearest_unmatched (threshold : Z) (ann : Annotation)
  (pool : list Detection) (j : nat) (det : Detection) : Prop :=
  nth_error pool j = Some det /\
  within threshold det ann /\
  forall k det', nth_error pool k = Some det' ->
    (dist det ann <= dist det' ann)%Q /\
    ((k < j)%nat -> (dist det ann < dist det' ann)%Q).

Definition none_within (threshold : Z) (ann : Annotation)
  (pool : list Detection) : Prop :=
  forall det, In det pool -> ~ within threshold det ann.

(** What the inner loop leaves in [(best_idx, best_dist)]. *)
Definition best_spec (t : Z) (ann : Annotation) (pool : list Detection)
  (b : Best) : Prop :=
  match b with
  | Some (j, d) =>
      exists det, nearest_unmatched t ann pool j det /\ d = dist det ann
  | None => none_within t ann pool
  end.

(** [greedy t anns pool pairs fns rest]: from the detections [pool], the
    annotations [anns] are paired as [pairs], [fns] stay unpaired and
    the detections [rest] are left over. *)
Inductive greedy (threshold : Z)
  : list Annotation -> list Detection ->
    list (Annotation * Detection) -> list Annotation -> list Detection -> Prop :=
| greedy_done pool :
    greedy threshold [] pool [] [] pool
| greedy_pair ann anns pool j det pairs fns rest :
    nearest_unmatched threshold ann pool j det ->
    greedy threshold anns (remove_nth j pool) pairs fns rest ->
    greedy threshold (ann :: anns) pool ((ann, det) :: pairs) fns rest
| greedy_miss ann anns pool pairs fns rest :
    none_within threshold ann pool ->
    greedy threshold anns pool pairs fns rest ->
    greedy threshold (ann :: anns) pool pairs (ann :: fns) rest.

(** The entry of [matched] a pair gives rise to. *)
Definition match_of (p : Annotation * Detection) : Match :=
  mkMatch (dist (snd p) (fst p))
          (String.eqb (ann_color (fst p)) (det_color (snd p))).

End WithSqrt.

(** A detection at the position of an annotation and of its colour. *)
Definition same_place (det : Detection) (ann : Annotation) : Prop :=
  det_x det = ann_x ann /\ det_y det = ann_y ann /\
  det_color det = ann_color ann.

End Scorer.

(** ** The parameter record: [models.DetectorParams] *)

Record DetectorParams : Type := mkParams {
  algorithm : string;
  dp : Q;
  minDist : Z;
  param1 : Z;
  param2 : Z;
  minRadius : Z;
  maxRadius : Z;
  redH1Low : Z;
  redH1High : Z;
  redH2Low : Z;
  redH2High : Z;
  redSMin : Z;
  redVMin : Z;
  blueH1Low : Z;
  blueH1High : Z;
  blueH2Low : Z;
  blueH2High : Z;
  blueSMin : Z;
  blueVMin : Z
}.

(** ** The colour classifier: [ColorClassifier.is_red], [is_blue] *)

Module ColorClassifier.

(** [lo <= h <= hi] *)
Definition between (lo h hi : Z) : bool := (lo <=? h) && (h <=? hi).

Definition is_red (h s v : Z) (params : DetectorParams) : bool :=
  let s_ok := redSMin params <=? s in
  let v_ok := redVMin params <=? v in
  let h_low_range := between (redH1Low params) h (redH1High params) in
  let h_high_range := between (redH2Low params) h (redH2High params) in
  (h_low_range || h_high_range) && s_ok && v_ok.

Definition is_blue (h s v : Z) (params : DetectorParams) : bool :=
  let s_ok := blueSMin params <=? s in
  let v_ok := blueVMin params <=? v in
  let h_range1 := between (blueH1Low params) h (blueH1High params) in
  let h_range2 :=
    negb (blueH2Low params =? blueH2High params)
    && between (blueH2Low params) h (blueH2High params) in
  (h_range1 || h_range2) && s_ok && v_ok.

(** The specification's reading of a hue sub-range: one whose bounds
    are equal is switched off. *)
Definition in_enabled_range (lo h hi : Z) : Prop :=
  lo <> hi /\ lo <= h <= hi.

End ColorClassifier.

(** ** The rescaling at the end of [optimize] *)

Module Rescaler.

(** [int(v / avg_scale)] for an integer [v] and a numpy float
    [avg_scale]: the quotient is infinite or not a number when
    [avg_scale] is zero, and [int] raises on both. *)
Definition int_div (v : Z) (avg_scale : Q) : result Z :=
  if Qeq_bool avg_scale 0 then
    Raise (if v =? 0 then ValueError else OverflowError)
  else Ok (py_int (inject_Z v / avg_scale)).

(** [scales] is [[img['_scale'] for img in self.train_set]]; the mean
    of an empty list is not a number. *)
Definition rescale (best_params_raw : DetectorParams) (scales : list Q)
  : result DetectorParams :=
  match scales with
  | [] => Raise ValueError
  | _ :: _ =>
      let avg_scale := np_mean scales in
      let p := best_params_raw in
      md <- int_div (minDist p) avg_scale ;;
      mnr <- int_div (minRadius p) avg_scale ;;
      mxr <- int_div (maxRadius p) avg_scale ;;
      Ok (mkParams (algorithm p) (dp p) md (param1 p) (param2 p) mnr mxr
            (redH1Low p) (redH1High p) (redH2Low p) (redH2High p)
            (redSMin p) (redVMin p)
            (blueH1Low p) (blueH1High p) (blueH2Low p) (blueH2High p)
            (blueSMin p) (blueVMin p))
  end.

(** What the specification asks of a rounded quotient: an integer at
    most one half away from it. *)
Definition nearest_integer (q : Q) (z : Z) : Prop :=
  (Qabs (inject_Z z - q) <= 1 # 2)%Q.

End Rescaler.

(** ** The search: [objective_function] and [optimize] *)

Module Optimizer.

(** A score that may still be [float('-inf')]. *)
Inductive score : Type :=
| NegInf
| Fin (q : Q).

(** [q > s] *)
Definition gt_score (q : Q) (s : score) : bool :=
  match s with
  | NegInf => true
  | Fin b => Qltb b q
  end.

(** [a >= b] *)
Definition score_ge (a b : score) : Prop :=
  match a, b with
  | _, NegInf => True
  | NegInf, Fin _ => False
  | Fin x, Fin y => (y <= x)%Q
  end.

(** The result of [evaluate_params]. *)
Record Evaluation : Type := mkEvaluation {
  avg_score : Q;
  per_image : list Scorer.ScoreRecord
}.

(** The point the global search hands to [objective_function]. *)
Record ParamValues : Type := mkValues {
  pv0 : Q;
  pv1 : Z; pv2 : Z; pv3 : Z; pv4 : Z; pv5 : Z;
  pv6 : Z; pv7 : Z; pv8 : Z; pv9 : Z; pv10 : Z; pv11 : Z;
  pv12 : Z; pv13 : Z; pv14 : Z; pv15 : Z
}.

(** The dictionary [objective_function] builds from the point. *)
Definition params_of_values (x : ParamValues) : DetectorParams :=
  mkParams "hough" (pv0 x) (pv1 x) (pv2 x) (pv3 x) (pv4 x) (pv5 x)
    (pv6 x) (pv7 x) (pv8 x) (pv9 x) (pv10 x) (pv11 x)
    (pv12 x) (pv13 x) 0 0 (pv14 x) (pv15 x).

(** The six attributes of the calibrator that track the best
    parameters seen. *)
Record Tracker : Type := mkTracker {
  best_params : option DetectorParams;
  best_score : score;
  best_detection_params : option DetectorParams;
  best_detection_score : score;
  best_color_params : option DetectorParams;
  best_color_score : score
}.

(** The tracker [__init__] sets up. *)
Definition init_tracker : Tracker :=
  mkTracker None NegInf None NegInf None NegInf.

(** How the global search ended: with its result [result.x], or with
    a [KeyboardInterrupt] after the evaluations made so far. *)
Inductive search_end : Type :=
| Completed (x : ParamValues)
| KeyboardInterrupt.

(** The state of the hill-climbing loop. *)
Record LocalState (rng : Type) : Type := mkLocal {
  current_params : DetectorParams;
  current_score : score;
  no_improvement_count : nat;
  improvements : nat;
  best_params_raw : DetectorParams;
  ls_best_score : score;
  best_source : string;
  rand : rng
}.

Arguments mkLocal {rng}.
Arguments current_params {rng}.
Arguments current_score {rng}.
Arguments no_improvement_count {rng}.
Arguments improvements {rng}.
Arguments best_params_raw {rng}.
Arguments ls_best_score {rng}.
Arguments best_source {rng}.
Arguments rand {rng}.

Section WithEvaluation.

(** [evaluate_params] on the training set: the detector behind it is
    OpenCV's, so it is a parameter here. *)
Variable evaluate_params : DetectorParams -> Evaluation.

(** [max(candidates, key=lambda x: x[1])]: the first of the largest. *)
Definition better (a b : option DetectorParams * score * string)
  : option DetectorParams * score * string :=
  match snd (fst b), snd (fst a) with
  | NegInf, _ => a
  | Fin y, s => if gt_score y s then b else a
  end.

Definition mean_of (f : Scorer.ScoreRecord -> Q) (e : Evaluation) : Q :=
  np_mean (map f (per_image e)).

Definition objective_function (tr : Tracker) (param_values : ParamValues)
  : Tracker * Q :=
  let params := params_of_values param_values in
  let result := evaluate_params params in
  let avg_f1 := mean_of Scorer.f1 result in
  let avg_color := mean_of Scorer.color_accuracy result in
  let avg_precision := mean_of Scorer.precision result in
  let avg_recall := mean_of Scorer.recall result in
  let detection_score :=
    (avg_f1 * 70 + avg_precision * 15 + avg_recall * 15)%Q in
  let color_score := (avg_color * 100)%Q in
  let '(bp, bs) :=
    if gt_score (avg_score result) (best_score tr)
    then (Some params, Fin (avg_score result))
    else (best_params tr, best_score tr) in
  let '(bdp, bds) :=
    if gt_score detection_score (best_detection_score tr)
    then (Some params, Fin detection_score)
    else (best_detection_params tr, best_detection_score tr) in
  let '(bcp, bcs) :=
    if gt_score color_score (best_color_score tr)
    then (Some params, Fin color_score)
    else (best_color_params tr, best_color_score tr) in
  (mkTracker bp bs bdp bds bcp bcs, (- avg_score result)%Q).

(** The training score of a point of the search. *)
Definition score_of (x : ParamValues) : Q :=
  avg_score (evaluate_params (params_of_values x)).

(** The evaluations the global search completes, in order. *)
Definition run_search (points : list ParamValues) (tr : Tracker) : Tracker :=
  fold_left (fun t x => fst (objective_function t x)) points tr.

(** The hybrid candidate: the detection fields of the first, the
    colour fields of the second. *)
Definition hybrid (d c : DetectorParams) : DetectorParams :=
  mkParams (algorithm d) (dp d) (minDist d) (param1 d) (param2 d)
    (minRadius d) (maxRadius d)
    (redH1Low c) (redH1High c) (redH2Low c) (redH2High c)
    (redSMin c) (redVMin c)
    (blueH1Low c) (blueH1High c) (blueH2Low c) (blueH2High c)
    (blueSMin c) (blueVMin c).

(** [optimize] from the end of the search to the start of the local
    refinement: [(best_params_raw, best_score, best_source)]. *)
Definition select_start (e : search_end) (tr : Tracker)
  : result (option DetectorParams * score * string) :=
  match e with
  | KeyboardInterrupt =>
      match best_params tr with
      | None => Raise ValueError
      | Some p => Ok (Some p, best_score tr, "Interrupted - Tracked Best"%string)
      end
  | Completed x =>
      let candidate_1 := params_of_values x in
      let c1 := (Some candidate_1,
                 Fin (avg_score (evaluate_params candidate_1)),
                 "Optimizer Best"%string) in
      let c2 :=
        match best_detection_params tr, best_color_params tr with
        | Some d, Some c =>
            (Some (hybrid d c), Fin (avg_score (evaluate_params (hybrid d c))),
             "Hybrid (Best Det + Best Color)"%string)
        | _, _ => (None, NegInf, "Hybrid (Best Det + Best Color)"%string)
        end in
      let c3 :=
        match best_params tr with
        | Some p => (Some p, Fin (avg_score (evaluate_params p)),
                     "Tracked Best"%string)
        | None => (None, NegInf, "Tracked Best"%string)
        end in
      Ok (better (better c1 c2) c3)
  end.

(** [optimize] up to the start of the local refinement, for a search
    that evaluated [points] and ended with [e]. *)
Definition global_phase (points : list ParamValues) (e : search_end)
  : result (option DetectorParams * score * string) :=
  select_start e (run_search points init_tracker).

Section WithNeighbor.

Variable rng : Type.

(** [neighbor_params]: its draws from [np.random] come out of the
    generator state it is handed and returns. *)
Variable neighbor_params : DetectorParams -> rng -> DetectorParams * rng.

(** [f"{best_source} + Local Search"], appended once. *)
Definition mark_local (src : string) : string :=
  match index 0 "+ Local Search" src with
  | Some _ => src
  | None => (src ++ " + Local Search")%string
  end.

(** The body of [for i in range(local_iterations)]. *)
Definition local_step (st : LocalState rng) : LocalState rng :=
  let '(neighbor, g) := neighbor_params (current_params st) (rand st) in
  let result := evaluate_params neighbor in
  if gt_score (avg_score result) (current_score st) then
    if gt_score (avg_score result) (ls_best_score st) then
      mkLocal neighbor (Fin (avg_score result)) 0 (S (improvements st))
        neighbor (Fin (avg_score result)) (mark_local (best_source st)) g
    else
      mkLocal neighbor (Fin (avg_score result)) 0 (S (improvements st))
        (best_params_raw st) (ls_best_score st) (best_source st) g
  else
    let count := S (no_improvement_count st) in
    if (10 <? count)%nat then
      let '(jump, g') := neighbor_params (best_params_raw st) g in
      mkLocal jump (ls_best_score st) 0 (improvements st)
        (best_params_raw st) (ls_best_score st) (best_source st) g'
    else
      mkLocal (current_params st) (current_score st) count (improvements st)
        (best_params_raw st) (ls_best_score st) (best_source st) g.

(** The state the loop starts from. *)
Definition local_init (seed : DetectorParams) (seed_score : score)
  (src : string) (g : rng) : LocalState rng :=
  mkLocal seed seed_score 0 0 seed seed_score src g.

Definition local_loop (n : nat) (st : LocalState rng) : LocalState rng :=
  Nat.iter n local_step st.

(** Phase 3 of [optimize]: the refinement runs for a positive number
    of iterations and a start that is not [None]. *)
Definition refine (local_iterations : Z)
  (start : option DetectorParams * score * string) (g : rng)
  : option DetectorParams * score * string :=
  match start with
  | (Some seed, seed_score, src) =>
      if 0 <? local_iterations then
        let st := local_loop (Z.to_nat local_iterations)
                    (local_init seed seed_score src g) in
        (Some (best_params_raw st), ls_best_score st, best_source st)
      else start
  | (None, _, _) => start
  end.

(** The neighbour an iteration evaluates, and its score. *)
Definition candidate (st : LocalState rng) : DetectorParams :=
  fst (neighbor_params (current_params st) (rand st)).

Definition candidate_score (st : LocalState rng) : Q :=
  avg_score (evaluate_params (candidate st)).

(** An iteration does not improve when the neighbour it evaluates
    scores no more than the current point. *)
Definition non_improving (st : LocalState rng) : Prop :=
  gt_score (candidate_score st) (current_score st) = false.

End WithNeighbor.

End WithEvaluation.

End Optimizer.

(** ** Concrete inputs *)

Definition red_at (x y : Z) : Scorer.Annotation :=
  Scorer.mkAnnotation x y "red".

Definition blue_at (x y : Z) : Scorer.Annotation :=
  Scorer.mkAnnotation x y "blue".

Definition det_at (x y : Z) (c : string) : Scorer.Detection :=
  Scorer.mkDetection x y 20 c.

(** The example of [models.DetectorParams]. *)
Definition example_params : DetectorParams :=
  mkParams "hough" (3 # 2) 30 100 30 10 50 0 10 160 180 100 100
    100 130 0 0 100 100.

(** Parameters whose first red range and first blue range have equal
    bounds, inside the bounds of the search space. *)
Definition narrow_params : DetectorParams :=
  mkParams "hough" (3 # 2) 30 100 30 10 50 5 5 160 180 100 100
    115 115 0 0 100 100.

(** A training set of blank images: nothing is detected, whatever the
    parameters, and the one annotation of the one image is missed. *)
Definition blank_evaluation (_ : DetectorParams) : Optimizer.Evaluation :=
  Optimizer.mkEvaluation (-10)
    [Scorer.mkScore 0 0 0 0 50 0 0 1 (-10)].

(** An evaluation that rewards a larger [minDist]. *)
Definition minDist_evaluation (p : DetectorParams) : Optimizer.Evaluation :=
  Optimizer.mkEvaluation (inject_Z (minDist p)) [].

(** One outcome of [neighbor_params]: a single mutation, of [minDist],
    one step of 5 upwards, clipped to the bounds 10 and 80; the
    generator state counts the calls. *)
Definition bump_minDist (p : DetectorParams) (g : nat) : DetectorParams * nat :=
  (mkParams (algorithm p) (dp p) (Z.max 10 (Z.min 80 (minDist p + 5)))
     (param1 p) (param2 p) (minRadius p) (maxRadius p)
     (redH1Low p) (redH1High p) (redH2Low p) (redH2High p)
     (redSMin p) (redVMin p)
     (blueH1Low p) (blueH1High p) (blueH2Low p) (blueH2High p)
     (blueSMin p) (blueVMin p),
   S g).

Definition example_point (md : Z) : Optimizer.ParamValues :=
  Optimizer.mkValues (3 # 2) md 100 30 10 50 0 10 160 180 100 100
    100 130 100 100.

(** ** More of Python: ranges and slices *)

(** [range(lo, hi)] *)
Definition py_range (lo hi : Z) : list Z :=
  map (fun i => lo + Z.of_nat i) (seq 0 (Z.to_nat (hi - lo))).

(** The index a slice bound [k] stands for in a list of length [n]:
    counted from the end when negative, and clamped. *)
Definition slice_bound (n : nat) (k : Z) : nat :=
  Z.to_nat (Z.min (Z.of_nat n) (if k <? 0 then Z.max 0 (k + Z.of_nat n) else k)).

(** [l[:k]] and [l[k:]] *)
Definition slice_to {A : Type} (k : Z) (l : list A) : list A :=
  firstn (slice_bound (length l) k) l.

Definition slice_from {A : Type} (k : Z) (l : list A) : list A :=
  skipn (slice_bound (length l) k) l.

(** ** The colour classifier: [ColorClassifier.classify_circle] *)

Module CircleClassifier.

(** The HSV image: [shape[0]] rows, [shape[1]] columns, and the pixel
    [hsv_image[py, px]]. *)
Record HsvImage : Type := mkHsv {
  rows : Z;
  cols : Z;
  pixel : Z -> Z -> Z * Z * Z
}.

(** The three counters of the sampling loop. *)
Record Counts : Type := mkCounts {
  red_count : nat;
  blue_count : nat;
  total_samples : nat
}.

(** [max(2, int(radius * 0.5))] and [max(3, int(radius * 0.9))] *)
Definition inner_radius (radius : Z) : Z :=
  Z.max 2 (py_int (inject_Z radius * (1 # 2))).

Definition outer_radius (radius : Z) : Z :=
  Z.max 3 (py_int (inject_Z radius * (9 # 10))).

(** The offsets [(dy, dx)] in the order the two loops visit them. *)
Definition offsets (outer : Z) : list (Z * Z) :=
  flat_map (fun dy => map (fun dx => (dy, dx)) (py_range (- outer) (outer + 1)))
           (py_range (- outer) (outer + 1)).

(** [dist_sq < inner_radius_sq or dist_sq > outer_radius_sq] *)
Definition outside_ring (inner outer : Z) (o : Z * Z) : bool :=
  let '(dy, dx) := o in
  let dist_sq := dx * dx + dy * dy in
  (dist_sq <? inner * inner) || (outer * outer <? dist_sq).

(** [px < 0 or px >= shape[1] or py < 0 or py >= shape[0]] *)
Definition out_of_bounds (img : HsvImage) (px py : Z) : bool :=
  (px <? 0) || (cols img <=? px) || (py <? 0) || (rows img <=? py).

(** The body of the inner loop, with its two [continue]. *)
Definition sample_step (img : HsvImage) (center_x center_y inner outer : Z)
  (params : DetectorParams) (c : Counts) (o : Z * Z) : Counts :=
  if outside_ring inner outer o then c
  else
    let px := center_x + snd o in
    let py := center_y + fst o in
    if out_of_bounds img px py then c
    else
      let '(h, s, v) := pixel img py px in
      if ColorClassifier.is_red h s v params then
        mkCounts (S (red_count c)) (blue_count c) (S (total_samples c))
      else if ColorClassifier.is_blue h s v params then
        mkCounts (red_count c) (S (blue_count c)) (S (total_samples c))
      else
        mkCounts (red_count c) (blue_count c) (S (total_samples c)).

Definition count_samples (img : HsvImage) (center_x center_y radius : Z)
  (params : DetectorParams) : Counts :=
  let inner := inner_radius radius in
  let outer := outer_radius radius in
  fold_left (sample_step img center_x center_y inner outer params)
    (offsets outer) (mkCounts 0 0 0).

(** The decision on the counters. *)
Definition decide (c : Counts) : string :=
  if (total_samples c =? 0)%nat then "unknown"
  else
    let red_ratio := (Qnat (red_count c) / Qnat (total_samples c))%Q in
    let blue_ratio := (Qnat (blue_count c) / Qnat (total_samples c))%Q in
    let threshold := (3 # 10)%Q in
    if Qltb threshold red_ratio && Qltb blue_ratio red_ratio then "red"
    else if Qltb threshold blue_ratio && Qltb red_ratio blue_ratio then "blue"
    else "unknown".

Definition classify_circle (hsv_image : HsvImage) (center_x center_y radius : Z)
  (params : DetectorParams) : string :=
  decide (count_samples hsv_image center_x center_y radius params).

(** The pixel at offset [o] from the centre lies in the sampled ring
    of the circle. *)
Definition in_ring (radius : Z) (o : Z * Z) : Prop :=
  let d := snd o * snd o + fst o * fst o in
  inner_radius radius * inner_radius radius <= d
  <= outer_radius radius * outer_radius radius.

End CircleClassifier.

(** ** The scores [objective_function] tracks *)

Module Tracking.

Section WithEvaluation.

Variable evaluate_params : DetectorParams -> Optimizer.Evaluation.

(** [detection_score] and [color_score] of [objective_function], for
    the point [x]. *)
Definition detection_score_of (x : Optimizer.ParamValues) : Q :=
  let result := evaluate_params (Optimizer.params_of_values x) in
  (Optimizer.mean_of Scorer.f1 result * 70
   + Optimizer.mean_of Scorer.precision result * 15
   + Optimizer.mean_of Scorer.recall result * 15)%Q.

Definition color_score_of (x : Optimizer.ParamValues) : Q :=
  let result := evaluate_params (Optimizer.params_of_values x) in
  (Optimizer.mean_of Scorer.color_accuracy result * 100)%Q.

(** The training score [optimize] evaluates a candidate to. *)
Definition train_score (p : DetectorParams) : Q :=
  Optimizer.avg_score (evaluate_params p).

End WithEvaluation.

(** The marker the refinement appends to the source label. *)
Definition local_marker : string := "+ Local Search".

End Tracking.

(** ** The search space and [neighbor_params] *)

Module Neighbor.

(** The integer parameters of [param_names], and all of them. *)
Inductive IntName : Type :=
| N_minDist | N_param1 | N_param2 | N_minRadius | N_maxRadius
| N_redH1Low | N_redH1High | N_redH2Low | N_redH2High
| N_redSMin | N_redVMin
| N_blueH1Low | N_blueH1High | N_blueSMin | N_blueVMin.

Inductive ParamName : Type :=
| N_dp
| N_int (i : IntName).

Definition param_names : list ParamName :=
  N_dp ::
  map N_int
    [N_minDist; N_param1; N_param2; N_minRadius; N_maxRadius;
     N_redH1Low; N_redH1High; N_redH2Low; N_redH2High; N_redSMin; N_redVMin;
     N_blueH1Low; N_blueH1High; N_blueSMin; N_blueVMin].

(** [params[param_name]] *)
Definition get_int (i : IntName) (p : DetectorParams) : Z :=
  match i with
  | N_minDist => minDist p
  | N_param1 => param1 p
  | N_param2 => param2 p
  | N_minRadius => minRadius p
  | N_maxRadius => maxRadius p
  | N_redH1Low => redH1Low p
  | N_redH1High => redH1High p
  | N_redH2Low => redH2Low p
  | N_redH2High => redH2High p
  | N_redSMin => redSMin p
  | N_redVMin => redVMin p
  | N_blueH1Low => blueH1Low p
  | N_blueH1High => blueH1High p
  | N_blueSMin => blueSMin p
  | N_blueVMin => blueVMin p
  end.

Definition IntName_eq_dec (a b : IntName) : {a = b} + {a <> b}.
Proof. decide equality. Defined.

(** The new value of a field when [params[i] = v] is executed. *)
Definition upd (i j : IntName) (v old : Z) : Z :=
  if IntName_eq_dec i j then v else old.

(** [params[param_name] = v] *)
Definition set_int (i : IntName) (v : Z) (p : DetectorParams) : DetectorParams :=
  mkParams (algorithm p) (dp p)
    (upd i N_minDist v (minDist p)) (upd i N_param1 v (param1 p))
    (upd i N_param2 v (param2 p)) (upd i N_minRadius v (minRadius p))
    (upd i N_maxRadius v (maxRadius p))
    (upd i N_redH1Low v (redH1Low p)) (upd i N_redH1High v (redH1High p))
    (upd i N_redH2Low v (redH2Low p)) (upd i N_redH2High v (redH2High p))
    (upd i N_redSMin v (redSMin p)) (upd i N_redVMin v (redVMin p))
    (upd i N_blueH1Low v (blueH1Low p)) (upd i N_blueH1High v (blueH1High p))
    (blueH2Low p) (blueH2High p)
    (upd i N_blueSMin v (blueSMin p)) (upd i N_blueVMin v (blueVMin p)).

Definition set_dp (v : Q) (p : DetectorParams) : DetectorParams :=
  mkParams (algorithm p) v (minDist p) (param1 p) (param2 p)
    (minRadius p) (maxRadius p)
    (redH1Low p) (redH1High p) (redH2Low p) (redH2High p)
    (redSMin p) (redVMin p)
    (blueH1Low p) (blueH1High p) (blueH2Low p) (blueH2High p)
    (blueSMin p) (blueVMin p).

(** [step_sizes]; the step of [dp] is 0.1. *)
Definition int_step (i : IntName) : Z :=
  match i with
  | N_minDist => 5
  | N_param1 => 10
  | N_param2 => 5
  | N_minRadius => 5
  | N_maxRadius => 5
  | N_redH1Low | N_redH1High | N_redH2Low | N_redH2High => 1
  | N_redSMin | N_redVMin => 10
  | N_blueH1Low | N_blueH1High => 1
  | N_blueSMin | N_blueVMin => 10
  end.

Definition dp_step : Q := 1 # 10.

(** The bounds [space_def.low] and [space_def.high] of [param_space];
    [dp] is [Real(1.0, 2.5)]. *)
Definition int_low (i : IntName) : Z :=
  match i with
  | N_minDist => 10
  | N_param1 => 30
  | N_param2 => 10
  | N_minRadius => 5
  | N_maxRadius => 20
  | N_redH1Low => 0
  | N_redH1High => 5
  | N_redH2Low => 150
  | N_redH2High => 170
  | N_redSMin | N_redVMin => 50
  | N_blueH1Low => 90
  | N_blueH1High => 115
  | N_blueSMin | N_blueVMin => 50
  end.

Definition int_high (i : IntName) : Z :=
  match i with
  | N_minDist => 80
  | N_param1 => 200
  | N_param2 => 60
  | N_minRadius => 50
  | N_maxRadius => 100
  | N_redH1Low => 10
  | N_redH1High => 20
  | N_redH2Low => 175
  | N_redH2High => 180
  | N_redSMin | N_redVMin => 180
  | N_blueH1Low => 115
  | N_blueH1High => 140
  | N_blueSMin | N_blueVMin => 180
  end.

Definition dp_low : Q := 1.
Definition dp_high : Q := 5 # 2.

(** [np.clip(v, lo, hi)] *)
Definition np_clip (v lo hi : Z) : Z := Z.min hi (Z.max v lo).

Definition np_clipQ (v lo hi : Q) : Q :=
  let m := if Qle_bool lo v then v else lo in
  if Qle_bool m hi then m else hi.

(** One pass of the mutation loop, for the drawn name, sign and
    number of steps. *)
Definition mutate (params : DetectorParams) (param_name : ParamName)
  (sign steps : Z) : DetectorParams :=
  match param_name with
  | N_dp =>
      let current_val := dp params in
      let step_change := (inject_Z sign * dp_step * inject_Z steps)%Q in
      let new_val := (current_val + step_change)%Q in
      set_dp (np_clipQ new_val dp_low dp_high) params
  | N_int i =>
      let current_val := get_int i params in
      let step_change := sign * int_step i * steps in
      let new_val := current_val + step_change in
      set_int i (np_clip new_val (int_low i) (int_high i)) params
  end.

(** The parameters lie in [param_space]. *)
Definition in_space (p : DetectorParams) : Prop :=
  (dp_low <= dp p <= dp_high)%Q /\
  forall i, int_low i <= get_int i p <= int_high i.

Section WithRandom.

(** The state of [np.random], and the three kinds of draws
    [neighbor_params] makes from it. *)
Variable rng : Type.
Variable randint : Z -> Z -> rng -> Z * rng.
Variable choice_name : rng -> ParamName * rng.
Variable choice_sign : rng -> Z * rng.

(** The body of [for _ in range(num_mutations)]. *)
Definition mutate_once (s : DetectorParams * rng) : DetectorParams * rng :=
  let '(params, g) := s in
  let '(param_name, g1) := choice_name g in
  let '(sign, g2) := choice_sign g1 in
  let '(steps, g3) := randint 1 3 g2 in
  (mutate params param_name sign steps, g3).

Definition neighbor_params (base_params : DetectorParams) (g : rng)
  : DetectorParams * rng :=
  let '(num_mutations, g1) := randint 1 4 g in
  Nat.iter (Z.to_nat num_mutations) mutate_once (base_params, g1).

(** The draws are what numpy makes them: [randint(lo, hi)] lies in
    [lo, hi) and the sign is -1 or 1. *)
Definition fair_draws : Prop :=
  (forall lo hi g, lo < hi -> lo <= fst (randint lo hi g) < hi) /\
  (forall g, fst (choice_sign g) = -1 \/ fst (choice_sign g) = 1).

End WithRandom.

End Neighbor.

(** ** The constraints of [models.DetectorParams] *)

Module Models.

(** [Field(ge=lo, le=hi)] *)
Definition field_ok (lo v hi : Z) : bool := (lo <=? v) && (v <=? hi).

(** The field constraints of the model; [blueH2Low] and [blueH2High]
    have none. *)
Definition fields_ok (p : DetectorParams) : bool :=
  String.eqb (algorithm p) "hough"
  && Qle_bool 1 (dp p) && Qle_bool (dp p) (5 # 2)
  && field_ok 10 (minDist p) 80
  && field_ok 30 (param1 p) 200
  && field_ok 10 (param2 p) 60
  && field_ok 5 (minRadius p) 50
  && field_ok 20 (maxRadius p) 100
  && field_ok 0 (redH1Low p) 10
  && field_ok 5 (redH1High p) 20
  && field_ok 150 (redH2Low p) 175
  && field_ok 170 (redH2High p) 180
  && field_ok 50 (redSMin p) 180
  && field_ok 50 (redVMin p) 180
  && field_ok 90 (blueH1Low p) 115
  && field_ok 115 (blueH1High p) 140
  && field_ok 50 (blueSMin p) 180
  && field_ok 50 (blueVMin p) 180.

(** [_params_to_model]: the constructor of the model on the entries
    of the dictionary; the validation error of pydantic is a
    [ValueError]. *)
Definition params_to_model (params : DetectorParams) : result DetectorParams :=
  if fields_ok params then Ok params else Raise ValueError.

End Models.

(** ** Detection and evaluation: [detect_poks], [evaluate_params] *)

Module Detector.

(** [np.round]: to the nearest integer, a half to the even one. *)
Definition np_round (q : Q) : Z :=
  let f := Qnum q / Zpos (Qden q) in
  let r := (q - inject_Z f)%Q in
  if Qltb r (1 # 2) then f
  else if Qltb (1 # 2) r then f + 1
  else if Z.even f then f else f + 1.

(** An image of the dataset, as [load_dataset] leaves it. *)
Record ImageData (Image : Type) : Type := mkImageData {
  filename : string;
  poks : list Scorer.Annotation;
  image : Image;
  scale : Q;
  orig_size : Z * Z
}.

Arguments mkImageData {Image}.
Arguments filename {Image}.
Arguments poks {Image}.
Arguments image {Image}.
Arguments scale {Image}.
Arguments orig_size {Image}.

Section WithOpenCV.

(** The images and the two calls into OpenCV: the circles of
    [cv2.HoughCircles] on the blurred grey image ([None], or the rows
    [(x, y, radius)] of [circles[0]]), and the conversion to HSV. *)
Variable Image : Type.
Variable HoughCircles : Image -> DetectorParams -> option (list (Q * Q * Q)).
Variable cvtColor_hsv : Image -> CircleClassifier.HsvImage.

Variable np_sqrt : Z -> Q.

(** The body of [for (x, y, radius) in circles]. *)
Definition detect_one (hsv : CircleClassifier.HsvImage)
  (params : DetectorParams) (scale : Q)
  (detections : list Scorer.Detection) (circle : Q * Q * Q)
  : result (list Scorer.Detection) :=
  let '(cx, cy, cr) := circle in
  let x := np_round cx in
  let y := np_round cy in
  let radius := np_round cr in
  let color := CircleClassifier.classify_circle hsv x y radius params in
  dx <- Rescaler.int_div x scale ;;
  dy <- Rescaler.int_div y scale ;;
  dr <- Rescaler.int_div radius scale ;;
  Ok (detections ++ [Scorer.mkDetection dx dy dr color]).

Definition detect_poks (image : Image) (params : DetectorParams) (scale : Q)
  (max_circles : Z) : result (list Scorer.Detection) :=
  match HoughCircles image params with
  | None => Ok []
  | Some circles =>
      let num_circles := Z.of_nat (length circles) in
      let circles :=
        if max_circles <? num_circles then slice_to max_circles circles
        else circles in
      let hsv := cvtColor_hsv image in
      for_each (detect_one hsv params scale) circles []
  end.

(** The body of [for img_data in dataset]: the running
    [(total_score, results)]. *)
Definition evaluate_one (match_threshold : Z) (params : DetectorParams)
  (acc : Q * list Scorer.ScoreRecord) (img_data : ImageData Image)
  : result (Q * list Scorer.ScoreRecord) :=
  detections <- detect_poks (image img_data) params (scale img_data) 20 ;;
  score <- Scorer.calculate_score np_sqrt match_threshold detections
             (poks img_data) ;;
  Ok ((fst acc + Scorer.combined_score score)%Q, snd acc ++ [score]).

(** [total_score / len(dataset)] divides the integer 0 by 0 when the
    dataset is empty. *)
Definition evaluate_params (match_threshold : Z) (params : DetectorParams)
  (dataset : list (ImageData Image)) : result Optimizer.Evaluation :=
  '(total_score, results) <-
    for_each (evaluate_one match_threshold params) dataset (0%Q, []) ;;
  match dataset with
  | [] => Raise ZeroDivisionError
  | _ :: _ =>
      Ok (Optimizer.mkEvaluation (total_score / Qnat (length dataset)) results)
  end.

End WithOpenCV.

(** The colours [classify_circle] can give. *)
Definition known_color (c : string) : Prop :=
  c = "red"%string \/ c = "blue"%string \/ c = "unknown"%string.

End Detector.

(** ** The dataset: [load_dataset], [split_dataset] *)

Module Dataset.

(** Python floats, where their rounding decides the result:
    [int(len(images) * train_ratio)]. The conversion is exact for the
    lengths of lists, which are far below 2^53. *)
Definition float_of_Z (z : Z) : PrimFloat.float :=
  PrimFloat.of_uint63 (Uint63.of_Z z).

(** [int(f)] for a finite float [f]. *)
Definition float_trunc (f : PrimFloat.float) : Z :=
  match FloatOps.Prim2SF f with
  | SpecFloat.S754_finite s m e =>
      let v := if 0 <=? e then Zpos m * 2 ^ e else Zpos m / 2 ^ (- e) in
      if s then - v else v
  | _ => 0
  end.

(** The default [train_ratio], the float 0.7. *)
Definition default_train_ratio : PrimFloat.float :=
  PrimFloat.div (float_of_Z 7) (float_of_Z 10).

Definition split_index (n : nat) (train_ratio : PrimFloat.float) : Z :=
  float_trunc (PrimFloat.mul (float_of_Z (Z.of_nat n)) train_ratio).

Section WithShuffle.

Variable A : Type.

(** [np.random.seed(42); np.random.shuffle(images)] *)
Variable shuffle : list A -> list A.

Definition split_dataset (images : list A) (train_ratio : PrimFloat.float)
  : list A * list A :=
  let images := shuffle images in
  let split_idx := split_index (length images) train_ratio in
  (slice_to split_idx images, slice_from split_idx images).

End WithShuffle.

(** An entry of [dataset['images']] in the file. *)
Record RawImage : Type := mkRaw {
  raw_filename : string;
  raw_poks : list Scorer.Annotation
}.

(** The dataset file: [dataset.get('version')] and
    [dataset.get('images')]. *)
Record DatasetFile : Type := mkDataset {
  version : option string;
  images : option (list RawImage)
}.

(** The exceptions of [load_dataset]. *)
Inductive load_exn : Type :=
| UnsupportedVersion
| NoImages
| ImageNotFound (name : string)
| ImageUnreadable (name : string).

(** [target_size] *)
Definition target_size : Z := 1280.

(** The scale an image of the given size is resized with. *)
Definition image_scale (orig_width orig_height : Z) : Q :=
  let max_dim := Z.max orig_width orig_height in
  if target_size <? max_dim then (inject_Z target_size / inject_Z max_dim)%Q
  else 1%Q.

Section WithFiles.

(** The image files: whether the path exists, what [cv2.imread]
    returns for it ([None] when it cannot be read), the
    [(height, width)] of an image, and [cv2.resize]. *)
Variable Image : Type.
Variable path_exists : string -> bool.
Variable imread : string -> option Image.
Variable shape : Image -> Z * Z.
Variable resize : Image -> Z -> Z -> Image.

Definition load_image (img_data : RawImage)
  : Detector.ImageData Image + load_exn :=
  if negb (path_exists (raw_filename img_data)) then
    inr (ImageNotFound (raw_filename img_data))
  else
    match imread (raw_filename img_data) with
    | None => inr (ImageUnreadable (raw_filename img_data))
    | Some img =>
        let '(orig_height, orig_width) := shape img in
        let max_dim := Z.max orig_width orig_height in
        let scale := image_scale orig_width orig_height in
        let img_resized :=
          if target_size <? max_dim then
            resize img (py_int (inject_Z orig_width * scale))
                       (py_int (inject_Z orig_height * scale))
          else img in
        inl (Detector.mkImageData (raw_filename img_data) (raw_poks img_data)
               img_resized scale (orig_width, orig_height))
    end.

(** The loop over [dataset['images']]; it stops at the first image
    that fails. *)
Fixpoint load_images (l : list RawImage)
  : list (Detector.ImageData Image) + load_exn :=
  match l with
  | [] => inl []
  | img_data :: l' =>
      match load_image img_data with
      | inr e => inr e
      | inl d =>
          match load_images l' with
          | inr e => inr e
          | inl ds => inl (d :: ds)
          end
      end
  end.

Definition load_dataset (dataset : DatasetFile)
  : list (Detector.ImageData Image) + load_exn :=
  match version dataset with
  | Some "1.0"%string =>
      match images dataset with
      | None | Some [] => inr NoImages
      | Some l => load_images l
      end
  | _ => inr UnsupportedVersion
  end.

End WithFiles.

End Dataset.

(** The detection a circle of [cv2.HoughCircles] gives rise to when
    the scale is not zero. *)
Definition detection_of (hsv : CircleClassifier.HsvImage)
  (params : DetectorParams) (scale : Q) (circle : Q * Q * Q)
  : Scorer.Detection :=
  let x := Detector.np_round (fst (fst circle)) in
  let y := Detector.np_round (snd (fst circle)) in
  let radius := Detector.np_round (snd circle) in
  Scorer.mkDetection
    (py_int (inject_Z x / scale)) (py_int (inject_Z y / scale))
    (py_int (inject_Z radius / scale))
    (CircleClassifier.classify_circle hsv x y radius params).

(** ** More concrete inputs *)

(** A 100 by 100 image that is red everywhere for
    [example_params]. *)
Definition red_image : CircleClassifier.HsvImage :=
  CircleClassifier.mkHsv 100 100 (fun _ _ => (0, 200, 200)).

(** The same image with a grey pixel at (50, 50). *)
Definition red_image_grey_centre : CircleClassifier.HsvImage :=
  CircleClassifier.mkHsv 100 100
    (fun py px => if (py =? 50) && (px =? 50) then (60, 0, 90)
                  else (0, 200, 200)).

(** A generator that counts its draws. *)
Definition counter_randint (lo hi : Z) (g : nat) : Z * nat :=
  (lo + Z.of_nat g mod (hi - lo), S g).

Definition counter_choice_name (g : nat) : Neighbor.ParamName * nat :=
  (nth (g mod 16) Neighbor.param_names Neighbor.N_dp, S g).

Definition counter_choice_sign (g : nat) : Z * nat :=
  (if Nat.even g then 1 else -1, S g).

(** Every image has two circles, near (50, 50) and (20, 70.5). *)
Definition two_circles (_ : unit) (_ : DetectorParams)
  : option (list (Q * Q * Q)) :=
  Some [(499 # 10, 501 # 10, 10%Q); (20%Q, 141 # 2, 12%Q)].

Definition always_red (_ : unit) : CircleClassifier.HsvImage := red_image.

Definition one_image_dataset : list (Detector.ImageData unit) :=
  [Detector.mkImageData "a.jpg" [red_at 50 50; blue_at 20 70] tt 1 (100, 100)].

(** Image files of 2000 by 1500 pixels, all present. *)
Definition big_file (_ : string) : option (Z * Z) := Some (1500, 2000).

Definition swap_resize (_ : Z * Z) (w h : Z) : Z * Z := (h, w).

Definition example_file : Dataset.DatasetFile :=
  Dataset.mkDataset (Some "1.0"%string)
    (Some [Dataset.mkRaw "a.jpg" [red_at 50 50];
           Dataset.mkRaw "b.jpg" [blue_at 20 70]]).

Definition example_loaded : list (Detector.ImageData (Z * Z)) :=
  [Detector.mkImageData "a.jpg" [red_at 50 50] (960, 1280)
     (inject_Z 1280 / inject_Z 2000) (2000, 1500);
   Detector.mkImageData "b.jpg" [blue_at 20 70] (960, 1280)
     (inject_Z 1280 / inject_Z 2000) (2000, 1500)].

(** * Properties *)

(** ** Numbers and lists *)

Lemma Qltb_lt (a b : Q) : Qltb a b = true <-> (a < b)%Q.
Proof.
  unfold Qltb. rewrite negb_true_iff. split; intro H.
  - apply Qnot_le_lt. intro Hle. apply Qle_bool_iff in Hle. congruence.
  - destruct (Qle_bool b a) eqn:E; [|reflexivity].
    apply Qle_bool_iff in E. exfalso. exact (Qlt_not_le _ _ H E).
Qed.

Lemma Qltb_ge (a b : Q) : Qltb a b = false <-> (b <= a)%Q.
Proof.
  unfold Qltb. rewrite negb_false_iff. apply Qle_bool_iff.
Qed.

Lemma Qnat_pos (n : nat) : (0 < n)%nat -> (0 < Qnat n)%Q.
Proof.
  intro H. unfold Qnat, Qlt. simpl. lia.
Qed.

Lemma Qnat_div_same (n : nat) : (0 < n)%nat -> (Qnat n / Qnat n == 1)%Q.
Proof.
  intro H. apply Qnat_pos in H. field. intro E. rewrite E in H.
  exact (Qlt_irrefl _ H).
Qed.

Lemma Qsum_zero (l : list Q) :
  Forall (fun q => (q == 0)%Q) l -> (Qsum l == 0)%Q.
Proof.
  induction 1 as [|q l Hq _ IH]; simpl.
  - reflexivity.
  - rewrite Hq, IH. reflexivity.
Qed.

Section Lists.

Context {A : Type}.

Lemma enumerate_snoc_from (l : list A) (x : A) (n : nat) :
  combine (seq n (length (l ++ [x]))) (l ++ [x])
  = combine (seq n (length l)) l ++ [((n + length l)%nat, x)].
Proof.
  revert n. induction l as [|y l IH]; intro n; simpl.
  - rewrite Nat.add_0_r. reflexivity.
  - rewrite IH. rewrite Nat.add_succ_r. reflexivity.
Qed.

Lemma enumerate_snoc (l : list A) (x : A) :
  enumerate (l ++ [x]) = enumerate l ++ [(length l, x)].
Proof.
  unfold enumerate. apply enumerate_snoc_from.
Qed.

Lemma remove_nth_perm (l : list A) (j : nat) (x : A) :
  nth_error l j = Some x -> Permutation l (x :: remove_nth j l).
Proof.
  revert j. induction l as [|y l IH]; intros [|j] H; simpl in H; try discriminate.
  - injection H as ->. unfold remove_nth. simpl. reflexivity.
  - unfold remove_nth. simpl. apply IH in H.
    rewrite perm_swap. constructor. exact H.
Qed.

Lemma remove_nth_length (l : list A) (j : nat) (x : A) :
  nth_error l j = Some x -> S (length (remove_nth j l)) = length l.
Proof.
  intro H. apply remove_nth_perm in H. apply Permutation_length in H.
  simpl in H. congruence.
Qed.

Variable eq_dec : forall a b : A, {a = b} + {a <> b}.

Lemma list_remove_In (x : A) (l : list A) :
  In x l -> exists l', list_remove eq_dec x l = Ok l' /\ Permutation l (x :: l').
Proof.
  induction l as [|y l IH]; intro H; simpl in *; [contradiction|].
  destruct (eq_dec x y) as [->|Hne].
  - exists l. split; reflexivity.
  - destruct H as [H|H]; [congruence|].
    destruct (IH H) as (l' & -> & Hp). simpl.
    exists (y :: l'). split; [reflexivity|].
    rewrite Hp. apply perm_swap.
Qed.

Lemma list_remove_head (x : A) (l : list A) :
  list_remove eq_dec x (x :: l) = Ok l.
Proof.
  simpl. destruct (eq_dec x x); congruence.
Qed.

End Lists.

(** ** The scorer *)

Section ScorerFacts.

Import Scorer.

Variable np_sqrt : Z -> Q.

Local Abbreviation dist := (Scorer.dist np_sqrt).
Local Abbreviation find_best := (Scorer.find_best np_sqrt).
Local Abbreviation best_step := (Scorer.best_step np_sqrt).
Local Abbreviation match_step := (Scorer.match_step np_sqrt).
Local Abbreviation greedy_matching := (Scorer.greedy_matching np_sqrt).
Local Abbreviation calculate_score := (Scorer.calculate_score np_sqrt).
Local Abbreviation within := (Scorer.within np_sqrt).
Local Abbreviation nearest_unmatched := (Scorer.nearest_unmatched np_sqrt).
Local Abbreviation none_within := (Scorer.none_within np_sqrt).
Local Abbreviation greedy := (Scorer.greedy np_sqrt).
Local Abbreviation match_of := (Scorer.match_of np_sqrt).
Local Abbreviation best_spec := (Scorer.best_spec np_sqrt).

Lemma find_best_snoc (t : Z) (ann : Annotation) (pool : list Detection)
  (det : Detection) :
  find_best t ann (pool ++ [det])
  = best_step t ann (find_best t ann pool) (length pool, det).
Proof.
  unfold Scorer.find_best. rewrite enumerate_snoc, fold_left_app. reflexivity.
Qed.

Lemma find_best_spec (t : Z) (ann : Annotation) (pool : list Detection) :
  best_spec t ann pool (find_best t ann pool).
Proof.
  induction pool as [|x pool IH] using rev_ind.
  - intros det [].
  - rewrite find_best_snoc.
    destruct (find_best t ann pool) as [[j d]|]; simpl in IH |- *.
    + destruct IH as (det & (Hj & Hw & Hmin) & ->).
      assert (Hlt : (j < length pool)%nat)
        by (apply nth_error_Some; congruence).
      destruct (Qltb (dist x ann) (inject_Z t)) eqn:E1;
        [destruct (Qltb (dist x ann) (dist det ann)) eqn:E2|]; simpl.
      * apply Qltb_lt in E1, E2.
        exists x. split; [|reflexivity]. repeat split.
        -- rewrite nth_error_app2, Nat.sub_diag by lia. reflexivity.
        -- exact E1.
        -- destruct (Nat.lt_ge_cases k (length pool)) as [Hk|Hk].
           ++ rewrite nth_error_app1 in H by exact Hk.
              apply Qlt_le_weak. eapply Qlt_le_trans; [exact E2|].
              apply (Hmin k det' H).
           ++ rewrite nth_error_app2 in H by exact Hk.
              destruct (k - length pool)%nat as [|m]; simpl in H.
              ** injection H as <-. apply Qle_refl.
              ** destruct m; discriminate.
        -- intro Hk. rewrite nth_error_app1 in H by exact Hk.
           eapply Qlt_le_trans; [exact E2|]. apply (Hmin k det' H).
      * apply Qltb_ge in E2.
        exists det. split; [|reflexivity]. repeat split.
        -- rewrite nth_error_app1 by exact Hlt. exact Hj.
        -- exact Hw.
        -- destruct (Nat.lt_ge_cases k (length pool)) as [Hk|Hk].
           ++ rewrite nth_error_app1 in H by exact Hk. apply (Hmin k det' H).
           ++ rewrite nth_error_app2 in H by exact Hk.
              destruct (k - length pool)%nat as [|m]; simpl in H.
              ** injection H as <-. exact E2.
              ** destruct m; discriminate.
        -- intro Hk. assert (Hk' : (k < length pool)%nat) by lia.
           rewrite nth_error_app1 in H by exact Hk'. apply (Hmin k det' H); exact Hk.
      * apply Qltb_ge in E1.
        assert (Hx : (dist det ann <= dist x ann)%Q).
        { apply Qlt_le_weak. eapply Qlt_le_trans; [exact Hw|exact E1]. }
        exists det. split; [|reflexivity]. repeat split.
        -- rewrite nth_error_app1 by exact Hlt. exact Hj.
        -- exact Hw.
        -- destruct (Nat.lt_ge_cases k (length pool)) as [Hk|Hk].
           ++ rewrite nth_error_app1 in H by exact Hk. apply (Hmin k det' H).
           ++ rewrite nth_error_app2 in H by exact Hk.
              destruct (k - length pool)%nat as [|m]; simpl in H.
              ** injection H as <-. exact Hx.
              ** destruct m; discriminate.
        -- intro Hk. assert (Hk' : (k < length pool)%nat) by lia.
           rewrite nth_error_app1 in H by exact Hk'. apply (Hmin k det' H); exact Hk.
    + destruct (Qltb (dist x ann) (inject_Z t)) eqn:E1; simpl.
      * apply Qltb_lt in E1.
        exists x. split; [|reflexivity]. repeat split.
        -- rewrite nth_error_app2, Nat.sub_diag by lia. reflexivity.
        -- exact E1.
        -- destruct (Nat.lt_ge_cases k (length pool)) as [Hk|Hk].
           ++ rewrite nth_error_app1 in H by exact Hk.
              apply nth_error_In in H. apply IH in H.
              apply Qnot_lt_le in H. apply Qlt_le_weak.
              eapply Qlt_le_trans; [exact E1|exact H].
           ++ rewrite nth_error_app2 in H by exact Hk.
              destruct (k - length pool)%nat as [|m]; simpl in H.
              ** injection H as <-. apply Qle_refl.
              ** destruct m; discriminate.
        -- intro Hk. rewrite nth_error_app1 in H by exact Hk.
           apply nth_error_In in H. apply IH in H.
           apply Qnot_lt_le in H. eapply Qlt_le_trans; [exact E1|exact H].
      * apply Qltb_ge in E1. intros det Hin Hw.
        apply in_app_or in Hin. destruct Hin as [Hin|[<-|[]]].
        -- exact (IH det Hin Hw).
        -- exact (Qlt_not_le _ _ Hw E1).
Qed.

Lemma match_loop_spec (t : Z) (anns : list Annotation) :
  forall st : MatchState,
    (forall a, (count_occ Annotation_eq_dec anns a
                <= count_occ Annotation_eq_dec (unmatched_annotations st) a)%nat) ->
    exists st' pairs fns,
      for_each (match_step t) anns st = Ok st' /\
      greedy t anns (unmatched_detections st) pairs fns (unmatched_detections st') /\
      matched st' = matched st ++ map match_of pairs /\
      Permutation (unmatched_annotations st)
                  (map fst pairs ++ unmatched_annotations st').
Proof.
  induction anns as [|a anns IH]; intros st Hc.
  - exists st, [], []. simpl. rewrite app_nil_r.
    repeat split; [constructor | reflexivity].
  - simpl. unfold Scorer.match_step.
    pose proof (find_best_spec t a (unmatched_detections st)) as Hs.
    destruct (find_best t a (unmatched_detections st)) as [[j d]|]; simpl in Hs.
    + destruct Hs as (det & Hn & ->).
      pose proof Hn as (Hj & _).
      unfold pop. rewrite Hj. simpl.
      assert (Hin : In a (unmatched_annotations st)).
      { apply (count_occ_In Annotation_eq_dec).
        specialize (Hc a). rewrite count_occ_cons_eq in Hc by reflexivity. lia. }
      destruct (list_remove_In Annotation_eq_dec a _ Hin) as (ua & -> & Hp).
      simpl.
      set (st1 := mkState _ _ ua).
      destruct (IH st1) as (st' & pairs & fns & Hrun & Hg & Hm & Hu).
      { intro x. specialize (Hc x). subst st1. simpl.
        rewrite (Permutation_count_occ Annotation_eq_dec) in Hp.
        rewrite (Hp x) in Hc.
        destruct (Annotation_eq_dec a x) as [->|Hne].
        - rewrite !count_occ_cons_eq in Hc by reflexivity. lia.
        - rewrite !count_occ_cons_neq in Hc by exact Hne. exact Hc. }
      exists st', ((a, det) :: pairs), fns. repeat split.
      * exact Hrun.
      * eapply greedy_pair; [exact Hn | exact Hg].
      * rewrite Hm. subst st1. simpl. rewrite <- app_assoc. reflexivity.
      * rewrite Hp. simpl. constructor. exact Hu.
    + destruct (IH st) as (st' & pairs & fns & Hrun & Hg & Hm & Hu).
      { intro x. specialize (Hc x).
        destruct (Annotation_eq_dec a x) as [->|Hne].
        - rewrite count_occ_cons_eq in Hc by reflexivity. lia.
        - rewrite count_occ_cons_neq in Hc by exact Hne. exact Hc. }
      exists st', pairs, (a :: fns). repeat split; try assumption.
      apply greedy_miss; assumption.
Qed.

Lemma greedy_perm (t : Z) anns pool pairs fns rest :
  greedy t anns pool pairs fns rest ->
  Permutation anns (map fst pairs ++ fns) /\
  Permutation pool (map snd pairs ++ rest).
Proof.
  induction 1 as [pool | ann anns pool j det pairs fns rest Hn _ [IH1 IH2]
                 | ann anns pool pairs fns rest _ _ [IH1 IH2]]; simpl.
  - split; reflexivity.
  - split.
    + constructor. exact IH1.
    + destruct Hn as (Hj & _). rewrite (remove_nth_perm _ _ _ Hj).
      constructor. exact IH2.
  - split; [|exact IH2].
    rewrite IH1. apply Permutation_middle.
Qed.

Lemma greedy_within (t : Z) anns pool pairs fns rest :
  greedy t anns pool pairs fns rest ->
  forall ann det, In (ann, det) pairs -> within t det ann.
Proof.
  induction 1 as [pool | ann anns pool j det pairs fns rest Hn _ IH
                 | ann anns pool pairs fns rest _ _ IH];
    intros a d Hin; simpl in Hin.
  - contradiction.
  - destruct Hin as [E|Hin]; [|exact (IH a d Hin)].
    injection E as <- <-. apply Hn.
  - exact (IH a d Hin).
Qed.

Lemma nearest_unique (t : Z) ann pool j1 d1 j2 d2 :
  nearest_unmatched t ann pool j1 d1 ->
  nearest_unmatched t ann pool j2 d2 ->
  j1 = j2 /\ d1 = d2.
Proof.
  intros (H1 & _ & M1) (H2 & _ & M2).
  destruct (Nat.lt_trichotomy j1 j2) as [L|[E|L]].
  - exfalso. destruct (M2 j1 d1 H1) as [_ S]. destruct (M1 j2 d2 H2) as [W _].
    exact (Qlt_not_le _ _ (S L) W).
  - subst j2. split; congruence.
  - exfalso. destruct (M1 j2 d2 H2) as [_ S]. destruct (M2 j1 d1 H1) as [W _].
    exact (Qlt_not_le _ _ (S L) W).
Qed.

(** The rules of [greedy] leave no choice. *)
Lemma greedy_functional (t : Z) anns pool pairs fns rest :
  greedy t anns pool pairs fns rest ->
  forall pairs' fns' rest',
    greedy t anns pool pairs' fns' rest' ->
    pairs' = pairs /\ fns' = fns /\ rest' = rest.
Proof.
  induction 1 as [pool | ann anns pool j det pairs fns rest Hn _ IH
                 | ann anns pool pairs fns rest Hnone _ IH];
    intros pairs' fns' rest' H'; inversion H'; subst.
  - repeat split.
  - match goal with
    | Hn' : Scorer.nearest_unmatched _ _ _ _ ?j' ?det' |- _ =>
        destruct (nearest_unique _ _ _ _ _ _ _ Hn Hn') as [<- <-]
    end.
    match goal with
    | Hg : Scorer.greedy _ _ _ _ _ _ _ |- _ =>
        destruct (IH _ _ _ Hg) as (-> & -> & ->)
    end.
    repeat split.
  - exfalso. destruct Hn as (Hj & Hw & _).
    match goal with
    | Hm : Scorer.none_within _ _ _ _ |- _ =>
        exact (Hm det (nth_error_In _ _ Hj) Hw)
    end.
  - exfalso.
    match goal with
    | Hn' : Scorer.nearest_unmatched _ _ _ _ _ ?d |- _ =>
        destruct Hn' as (Hj & Hw & _);
        exact (Hnone d (nth_error_In _ _ Hj) Hw)
    end.
  - match goal with
    | Hg : Scorer.greedy _ _ _ _ _ _ _ |- _ =>
        destruct (IH _ _ _ Hg) as (-> & -> & ->)
    end.
    repeat split.
Qed.

(** The matching loop never raises, and what it computes is the greedy
    assignment. *)
Lemma greedy_matching_spec (t : Z) (dets : list Detection)
  (anns : list Annotation) :
  exists st pairs fns,
    greedy_matching t dets anns = Ok st /\
    greedy t anns dets pairs fns (unmatched_detections st) /\
    matched st = map match_of pairs /\
    Permutation (unmatched_annotations st) fns.
Proof.
  destruct (match_loop_spec t anns (mkState [] dets anns))
    as (st & pairs & fns & Hrun & Hg & Hm & Hu).
  { intro a. simpl. lia. }
  simpl in *. exists st, pairs, fns. repeat split; try assumption.
  destruct (greedy_perm _ _ _ _ _ _ Hg) as [Ha _].
  rewrite Ha in Hu. apply Permutation_app_inv_l in Hu.
  symmetry. exact Hu.
Qed.

(** [metrics] raises only for the division by a zero threshold, and
    counts the three lists otherwise. *)
Lemma metrics_counts (t : Z) (st : MatchState) :
  match metrics t st with
  | Ok r =>
      true_positives r = length (matched st) /\
      false_positives r = length (unmatched_detections st) /\
      false_negatives r = length (unmatched_annotations st)
  | Raise e => e = ZeroDivisionError /\ t = 0
  end.
Proof.
  unfold Scorer.metrics, Scorer.div_threshold.
  destruct (matched st) as [|m ms]; simpl.
  - destruct (t =? 0) eqn:E; simpl.
    + split; [reflexivity | lia].
    + repeat split.
  - repeat split.
Qed.

(** The combined score of every record is
    50 F1 + 40 colour accuracy - 10 (mean error / threshold). *)
Lemma combined_score_formula (t : Z) (st : MatchState) (r : ScoreRecord) :
  Scorer.metrics t st = Ok r ->
  (combined_score r ==
   50 * f1 r + 40 * color_accuracy r
   - 10 * (avg_position_error r / inject_Z t))%Q.
Proof.
  unfold Scorer.metrics, Scorer.div_threshold.
  destruct (matched st) as [|m ms]; [destruct (t =? 0)|]; simpl;
    intro H; inversion H; subst; simpl; ring.
Qed.

Lemma calculate_score_counts (t : Z) (dets : list Detection)
  (anns : list Annotation) (st : MatchState) :
  greedy_matching t dets anns = Ok st ->
  match calculate_score t dets anns with
  | Ok r =>
      true_positives r = length (matched st) /\
      false_positives r = length (unmatched_detections st) /\
      false_negatives r = length (unmatched_annotations st)
  | Raise e => e = ZeroDivisionError /\ t = 0
  end.
Proof.
  intro H. unfold Scorer.calculate_score. rewrite H. simpl.
  apply metrics_counts.
Qed.




(** The division of [div_threshold] by zero is the one of Python
    integers: once something is matched the threshold is positive. *)
Lemma matched_threshold_pos (t : Z) (dets : list Detection)
  (anns : list Annotation) (st : MatchState) :
  (forall z, (0 <= np_sqrt z)%Q) ->
  greedy_matching t dets anns = Ok st ->
  matched st <> [] -> 0 < t.
Proof.
  intros Hnn Hrun Hne.
  destruct (greedy_matching_spec t dets anns)
    as (st' & pairs & fns & Hrun' & Hg & Hm & _).
  rewrite Hrun in Hrun'. injection Hrun' as <-.
  destruct pairs as [|[a d] pairs]; [simpl in Hm; congruence|].
  pose proof (greedy_within _ _ _ _ _ _ Hg a d (or_introl eq_refl)) as Hw.
  unfold Scorer.within in Hw.
  assert (H0 : (0 < inject_Z t)%Q)
    by (eapply Qle_lt_trans; [apply Hnn | exact Hw]).
  unfold Qlt in H0. simpl in H0. lia.
Qed.

(** *** Detections identical to the annotations *)

Lemma best_step_keeps (t : Z) (ann : Annotation) (j : nat) (d0 : Q)
  (l : list (nat * Detection)) :
  (forall z, (0 <= np_sqrt z)%Q) -> (d0 <= 0)%Q ->
  fold_left (best_step t ann) l (Some (j, d0)) = Some (j, d0).
Proof.
  intros Hnn Hd0. induction l as [|[k det] l IH]; simpl; [reflexivity|].
  assert (E : Qltb (dist det ann) d0 = false).
  { apply Qltb_ge. eapply Qle_trans; [exact Hd0 | apply Hnn]. }
  rewrite E, andb_false_r. exact IH.
Qed.

Lemma dist_same_place (d : Detection) (a : Annotation) :
  same_place d a -> dist d a = np_sqrt 0.
Proof.
  intros (Hx & Hy & _). unfold Scorer.dist. rewrite Hx, Hy, !Z.sub_diag.
  reflexivity.
Qed.

Lemma find_best_identical (t : Z) (a : Annotation) (d : Detection)
  (pool : list Detection) :
  (np_sqrt 0 == 0)%Q -> (forall z, (0 <= np_sqrt z)%Q) -> 0 < t ->
  same_place d a ->
  find_best t a (d :: pool) = Some (0%nat, np_sqrt 0).
Proof.
  intros H0 Hnn Ht Hs.
  unfold Scorer.find_best, enumerate. simpl.
  rewrite (dist_same_place d a Hs).
  assert (E : Qltb (np_sqrt 0) (inject_Z t) = true).
  { apply Qltb_lt. rewrite H0. unfold Qlt. simpl. lia. }
  rewrite E. simpl.
  apply best_step_keeps; [exact Hnn|]. rewrite H0. apply Qle_refl.
Qed.

Lemma identical_loop (t : Z) (dets : list Detection) (anns : list Annotation) :
  (np_sqrt 0 == 0)%Q -> (forall z, (0 <= np_sqrt z)%Q) -> 0 < t ->
  Forall2 same_place dets anns ->
  forall m,
    for_each (match_step t) anns (mkState m dets anns)
    = Ok (mkState (m ++ map (fun _ => mkMatch (np_sqrt 0) true) anns) [] []).
Proof.
  intros H0 Hnn Ht. induction 1 as [|d a dets anns Hs _ IH]; intro m; simpl.
  - rewrite app_nil_r. reflexivity.
  - unfold Scorer.match_step. simpl.
    rewrite (find_best_identical t a d dets H0 Hnn Ht Hs). simpl.
    destruct Hs as (_ & _ & Hc). rewrite Hc, String.eqb_refl.
    destruct (Annotation_eq_dec a a) as [_|Hne]; [|congruence]. simpl.
    unfold remove_nth. simpl.
    rewrite IH, <- app_assoc. reflexivity.
Qed.

Lemma metrics_perfect (t : Z) (n : nat) (d0 : Q) :
  (d0 == 0)%Q -> 0 < t -> (0 < n)%nat ->
  exists r,
    Scorer.metrics t (mkState (repeat (mkMatch d0 true) n) [] []) = Ok r /\
    (precision r == 1)%Q /\ (recall r == 1)%Q /\ (f1 r == 1)%Q /\
    (color_accuracy r == 1)%Q /\ (avg_position_error r == 0)%Q /\
    (combined_score r == 90)%Q /\
    (combined_score r ==
     50 * f1 r + 40 * color_accuracy r
     - 10 * (avg_position_error r / inject_Z t))%Q.
Proof.
  intros Hd Ht Hn.
  assert (Hlen : length (repeat (mkMatch d0 true) n) = n) by apply repeat_length.
  assert (Hfil : filter color_match (repeat (mkMatch d0 true) n)
                 = repeat (mkMatch d0 true) n).
  { clear. induction n; simpl; congruence. }
  assert (Hmean : (np_mean (map distance (repeat (mkMatch d0 true) n)) == 0)%Q).
  { unfold np_mean. rewrite Qsum_zero.
    - unfold Qdiv. apply Qmult_0_l.
    - clear - Hd. induction n; simpl; constructor; [exact Hd | assumption]. }
  assert (Hp : (Qnat n / Qnat n == 1)%Q) by (apply Qnat_div_same; exact Hn).
  assert (Hsum : (0 < Qnat n / Qnat n + Qnat n / Qnat n)%Q).
  { rewrite Hp. reflexivity. }
  assert (Ht' : ~ (inject_Z t == 0)%Q).
  { unfold Qeq. simpl. lia. }
  unfold Scorer.metrics, Scorer.div_threshold. simpl.
  rewrite Hlen, Hfil, Hlen, Nat.add_0_r.
  destruct n as [|n]; [lia|].
  change (0 <? S n)%nat with true. cbv iota.
  apply Qltb_lt in Hsum. rewrite Hsum.
  cbn [repeat bind].
  eexists. split; [reflexivity|]. cbn [precision recall f1 color_accuracy
    avg_position_error combined_score].
  change (mkMatch d0 true :: repeat (mkMatch d0 true) n)
    with (repeat (mkMatch d0 true) (S n)).
  rewrite !Hmean, !Hp.
  repeat split; try reflexivity; field; exact Ht'.
Qed.


(** *** No detection, or no annotation *)

Lemma empty_pool_loop (t : Z) (anns : list Annotation) (st : MatchState) :
  unmatched_detections st = [] ->
  for_each (match_step t) anns st = Ok st.
Proof.
  intro He. induction anns as [|a anns IH]; simpl; [reflexivity|].
  unfold Scorer.match_step. rewrite He. simpl. exact IH.
Qed.

Lemma Qnat_0_div (q : Q) : (Qnat 0 / q == 0)%Q.
Proof.
  unfold Qdiv. apply Qmult_0_l.
Qed.

Lemma metrics_no_match (t : Z) (dets : list Detection)
  (anns : list Annotation) :
  t <> 0 ->
  exists r,
    Scorer.metrics t (mkState [] dets anns) = Ok r /\
    true_positives r = 0%nat /\
    false_positives r = length dets /\
    false_negatives r = length anns /\
    (precision r == 0)%Q /\ (recall r == 0)%Q /\ (f1 r == 0)%Q /\
    (color_accuracy r == 0)%Q /\
    avg_position_error r = inject_Z t /\
    (combined_score r == -10)%Q.
Proof.
  intro Ht.
  assert (Ht' : ~ (inject_Z t == 0)%Q) by (unfold Qeq; simpl; lia).
  unfold Scorer.metrics, Scorer.div_threshold. simpl.
  destruct (t =? 0) eqn:E; [lia|]. simpl.
  set (p := if (0 <? length dets)%nat then _ else _).
  set (rc := if (0 <? length anns)%nat then _ else _).
  assert (Hp : (p == 0)%Q).
  { subst p. destruct (0 <? length dets)%nat;
      [apply Qnat_0_div | reflexivity]. }
  assert (Hrc : (rc == 0)%Q).
  { subst rc. destruct (0 <? length anns)%nat;
      [apply Qnat_0_div | reflexivity]. }
  assert (Hf : Qltb 0 (p + rc) = false).
  { apply Qltb_ge. rewrite Hp, Hrc. discriminate. }
  rewrite Hf.
  eexists. split; [reflexivity|]. simpl.
  repeat split; try assumption; try reflexivity.
  field. exact Ht'.
Qed.

(** C6, amended. For a threshold other than zero the scorer does not
    raise on an empty list. With no detection, every annotation is a
    false negative, nothing is a true positive and F1 is 0; with no
    annotation, every detection is a false positive and precision and
    recall are 0. In both cases F1 and colour accuracy are 0, the mean
    error is the threshold and the combined score is -10. *)
Theorem C6_degenerate_inputs (t : Z) (Ht : t <> 0) :
  (forall anns : list Annotation,
      exists r,
        calculate_score t [] anns = Ok r /\
        (f1 r == 0)%Q /\
        false_negatives r = length anns /\
        true_positives r = 0%nat /\
        false_positives r = 0%nat /\
        (precision r == 0)%Q /\ (recall r == 0)%Q /\
        (color_accuracy r == 0)%Q /\ (combined_score r == -10)%Q) /\
  (forall dets : list Detection,
      exists r,
        calculate_score t dets [] = Ok r /\
        false_positives r = length dets /\
        (recall r == 0)%Q /\ (precision r == 0)%Q /\
        true_positives r = 0%nat /\
        false_negatives r = 0%nat /\
        (f1 r == 0)%Q /\
        (color_accuracy r == 0)%Q /\ (combined_score r == -10)%Q).
Proof.
  split.
  - intro anns. unfold Scorer.calculate_score, Scorer.greedy_matching.
    rewrite empty_pool_loop by reflexivity. simpl.
    destruct (metrics_no_match t [] anns Ht)
      as (r & Hr & Htp & Hfp & Hfn & Hp & Hrc & Hf & Hc & _ & Hs).
    exists r. repeat split; assumption.
  - intro dets. unfold Scorer.calculate_score, Scorer.greedy_matching. simpl.
    destruct (metrics_no_match t dets [] Ht)
      as (r & Hr & Htp & Hfp & Hfn & Hp & Hrc & Hf & Hc & _ & Hs).
    exists r. repeat split; assumption.
Qed.

End ScorerFacts.

(** *** The scorer on concrete inputs *)

Lemma sqrt_interp_0 : (sqrt_interp 0 == 0)%Q.
Proof. reflexivity. Qed.

Lemma sqrt_interp_nonneg (z : Z) : (0 <= sqrt_interp z)%Q.
Proof.
  unfold sqrt_interp. destruct (z <=? 0) eqn:E; [apply Qle_refl|].
  apply Z.leb_gt in E.
  pose proof (Z.sqrt_nonneg z) as Hk.
  pose proof (Z.sqrt_spec z (Z.lt_le_incl _ _ E)) as [Hlo _].
  cbv zeta.
  apply (Qplus_le_compat 0 _ 0).
  - unfold Qle, inject_Z. cbn [Qnum Qden]. lia.
  - unfold Qdiv. apply Qmult_le_0_compat.
    + unfold Qle, inject_Z. cbn [Qnum Qden]. lia.
    + apply Qinv_le_0_compat. unfold Qle, inject_Z. cbn [Qnum Qden]. lia.
Qed.

Lemma sqrt_interp_square (k : Z) : 0 <= k -> (sqrt_interp (k * k) == inject_Z k)%Q.
Proof.
  intro Hk. unfold sqrt_interp.
  destruct (k * k <=? 0) eqn:E.
  - apply Z.leb_le in E. assert (k = 0) by nia. subst k. reflexivity.
  - rewrite Z.sqrt_square by exact Hk. rewrite Z.sub_diag.
    unfold Qdiv. rewrite Qmult_0_l. apply Qplus_0_r.
Qed.

(** The first annotation takes the detection 3 pixels away, which is
    the one the second annotation is nearest to; the second annotation
    gets what is left. *)
Example greedy_takes_nearest :
  Scorer.greedy_matching sqrt_interp 50
    [det_at 0 3 "blue"; det_at 0 10 "red"] [red_at 0 0; blue_at 0 4]
  = Ok (Scorer.mkState
          [Scorer.mkMatch (sqrt_interp 9) false;
           Scorer.mkMatch (sqrt_interp 36) false]
          [] []).
Proof. reflexivity. Qed.

(** The same annotations in the other order are paired the other way
    round. *)
Example greedy_depends_on_order :
  Scorer.greedy_matching sqrt_interp 50
    [det_at 0 3 "blue"; det_at 0 10 "red"] [blue_at 0 4; red_at 0 0]
  = Ok (Scorer.mkState
          [Scorer.mkMatch (sqrt_interp 1) true;
           Scorer.mkMatch (sqrt_interp 100) true]
          [] []).
Proof. reflexivity. Qed.

(** Two detections equally near: the first one in the list is taken. *)
Example greedy_tie_first_seen :
  Scorer.greedy_matching sqrt_interp 50
    [det_at 3 0 "blue"; det_at 0 3 "red"] [red_at 0 0]
  = Ok (Scorer.mkState [Scorer.mkMatch (sqrt_interp 9) false]
          [det_at 0 3 "red"] []).
Proof. reflexivity. Qed.



(** C6 as stated fails for a threshold of zero: with nothing matched
    the mean error is the integer threshold, and dividing it by the
    threshold raises. *)
Lemma C6_counterexample_zero_threshold :
  Scorer.calculate_score sqrt_interp 0 [] [red_at 10 20]
  = Raise ZeroDivisionError /\
  Scorer.calculate_score sqrt_interp 0 [det_at 10 20 "red"] []
  = Raise ZeroDivisionError.
Proof. split; reflexivity. Qed.

Lemma C6_witness :
  (forall anns : list Scorer.Annotation,
      exists r,
        Scorer.calculate_score sqrt_interp 50 [] anns = Ok r /\
        (Scorer.f1 r == 0)%Q /\
        Scorer.false_negatives r = length anns /\
        Scorer.true_positives r = 0%nat /\
        Scorer.false_positives r = 0%nat /\
        (Scorer.precision r == 0)%Q /\ (Scorer.recall r == 0)%Q /\
        (Scorer.color_accuracy r == 0)%Q /\
        (Scorer.combined_score r == -10)%Q) /\
  (forall dets : list Scorer.Detection,
      exists r,
        Scorer.calculate_score sqrt_interp 50 dets [] = Ok r /\
        Scorer.false_positives r = length dets /\
        (Scorer.recall r == 0)%Q /\ (Scorer.precision r == 0)%Q /\
        Scorer.true_positives r = 0%nat /\
        Scorer.false_negatives r = 0%nat /\
        (Scorer.f1 r == 0)%Q /\
        (Scorer.color_accuracy r == 0)%Q /\
        (Scorer.combined_score r == -10)%Q).
Proof.
  apply (C6_degenerate_inputs sqrt_interp 50). lia.
Defined.

(** A detection at (3, 4) is exactly 5 pixels from an annotation at
    the origin: with a threshold of 5 it is not matched. *)
Example at_threshold_unmatched :
  Scorer.calculate_score sqrt_interp 5 [det_at 3 4 "red"] [red_at 0 0]
  = Ok (Scorer.mkScore 0 (0 / 1) 0 0 (inject_Z 5) 0 1 1
          (0 * 50 + 0 * 40 - inject_Z 5 / inject_Z 5 * 10)).
Proof. reflexivity. Qed.


(** ** The colour classifier *)

Section ClassifierFacts.

Import ColorClassifier.

Lemma between_spec (lo h hi : Z) : between lo h hi = true <-> lo <= h <= hi.
Proof.
  unfold between. rewrite andb_true_iff, !Z.leb_le. reflexivity.
Qed.

(** C4, amended. A pixel matches red exactly when its hue lies in one
    of the two red ranges, bounds included, and its saturation and
    value reach the red floors; it matches blue exactly when its hue
    lies in the first blue range, bounds included, or in the second
    blue range provided the bounds of that one differ, and its
    saturation and value reach the blue floors. Only the second blue
    range is switched off by equal bounds. *)
Theorem C4_color_match (h s v : Z) (p : DetectorParams) :
  (is_red h s v p = true <->
   (redH1Low p <= h <= redH1High p \/ redH2Low p <= h <= redH2High p) /\
   redSMin p <= s /\ redVMin p <= v) /\
  (is_blue h s v p = true <->
   (blueH1Low p <= h <= blueH1High p \/
    in_enabled_range (blueH2Low p) h (blueH2High p)) /\
   blueSMin p <= s /\ blueVMin p <= v).
Proof.
  unfold is_red, is_blue, in_enabled_range. cbv zeta.
  rewrite !andb_true_iff, !orb_true_iff, !andb_true_iff, !between_spec,
    !Z.leb_le, negb_true_iff, Z.eqb_neq.
  tauto.
Qed.

End ClassifierFacts.

(** C4 as stated fails: hue 5 matches red through a first red range
    from 5 to 5, and hue 115 matches blue through a first blue range
    from 115 to 115, though no range with distinct bounds holds them. *)
Lemma C4_counterexample_equal_bounds :
  ColorClassifier.is_red 5 200 200 narrow_params = true /\
  redH1Low narrow_params = redH1High narrow_params /\
  ~ (ColorClassifier.in_enabled_range
       (redH1Low narrow_params) 5 (redH1High narrow_params) \/
     ColorClassifier.in_enabled_range
       (redH2Low narrow_params) 5 (redH2High narrow_params)) /\
  ColorClassifier.is_blue 115 200 200 narrow_params = true /\
  blueH1Low narrow_params = blueH1High narrow_params /\
  ~ (ColorClassifier.in_enabled_range
       (blueH1Low narrow_params) 115 (blueH1High narrow_params) \/
     ColorClassifier.in_enabled_range
       (blueH2Low narrow_params) 115 (blueH2High narrow_params)).
Proof.
  unfold ColorClassifier.in_enabled_range. simpl.
  repeat split; try reflexivity; intros [[H1 H2]|[H1 H2]]; lia.
Qed.

(** ** The rescaling *)

Lemma py_int_proper (q q' : Q) : (q == q')%Q -> py_int q = py_int q'.
Proof.
  destruct q as [n d], q' as [n' d']. unfold Qeq, py_int. simpl. intro H.
  rewrite <- (Z.quot_mul_cancel_r n (Zpos d) (Zpos d')) by lia.
  rewrite <- (Z.quot_mul_cancel_r n' (Zpos d') (Zpos d)) by lia.
  rewrite H. f_equal. lia.
Qed.

Lemma py_int_inject (z : Z) : py_int (inject_Z z) = z.
Proof.
  unfold py_int. simpl. apply Z.quot_1_r.
Qed.

(** [py_int] drops the fractional part: the result is no larger in
    absolute value than the argument and less than one away from it,
    and it has no sign of its own. *)
Lemma py_int_truncates (q : Q) :
  (Qabs (inject_Z (py_int q)) <= Qabs q)%Q /\
  (Qabs q < Qabs (inject_Z (py_int q)) + 1)%Q /\
  ((0 <= q)%Q -> 0 <= py_int q) /\
  ((q <= 0)%Q -> py_int q <= 0).
Proof.
  destruct q as [n d]. unfold py_int, Qle, Qlt. simpl.
  pose proof (Z.quot_rem' n (Zpos d)) as Hqr.
  assert (Hd : 0 < Zpos d) by lia.
  assert (Habs : Z.abs (n ÷ Zpos d) = Z.abs n / Zpos d).
  { rewrite <- (Z.quot_abs n (Zpos d)) by lia.
    rewrite Z.quot_div_nonneg by lia. reflexivity. }
  pose proof (Z.mul_div_le (Z.abs n) (Zpos d) Hd) as Hle.
  pose proof (Z.mul_succ_div_gt (Z.abs n) (Zpos d) Hd) as Hgt.
  rewrite Habs. repeat split.
  - lia.
  - lia.
  - intro Hn. apply Z.quot_pos; lia.
  - intro Hn. rewrite Z.mul_1_r in Hn.
    rewrite <- (Z.opp_involutive n), Z.quot_opp_l by lia.
    assert (0 <= (- n) ÷ Zpos d) by (apply Z.quot_pos; lia). lia.
Qed.

Lemma Qsum_pos (l : list Q) :
  l <> [] -> Forall (fun s => (0 < s)%Q) l -> (0 < Qsum l)%Q.
Proof.
  intros Hne H. induction H as [|s l Hs Hl IH]; [congruence|].
  simpl. destruct l as [|s' l].
  - simpl. rewrite Qplus_0_r. exact Hs.
  - apply (Qplus_lt_le_compat 0 s 0).
    + exact Hs.
    + apply Qlt_le_weak. apply IH. discriminate.
Qed.

Lemma np_mean_pos (l : list Q) :
  l <> [] -> Forall (fun s => (0 < s)%Q) l -> (0 < np_mean l)%Q.
Proof.
  intros Hne H. unfold np_mean, Qdiv.
  apply Qmult_lt_0_compat.
  - apply Qsum_pos; assumption.
  - apply Qinv_lt_0_compat. apply Qnat_pos.
    destruct l; [congruence | simpl; lia].
Qed.

Lemma Qsum_ones (l : list Q) :
  Forall (fun s => (s == 1)%Q) l -> (Qsum l == Qnat (length l))%Q.
Proof.
  induction 1 as [|s l Hs _ IH]; [reflexivity|].
  simpl Qsum. simpl length. change (s == 1)%Q in Hs. rewrite Hs, IH.
  unfold Qnat. rewrite <- (inject_Z_plus 1). apply inject_Z_injective. lia.
Qed.

Lemma np_mean_ones (l : list Q) :
  l <> [] -> Forall (fun s => (s == 1)%Q) l -> (np_mean l == 1)%Q.
Proof.
  intros Hne H. unfold np_mean. rewrite (Qsum_ones l H).
  apply Qnat_div_same. destruct l; [congruence | simpl; lia].
Qed.

Lemma Qdiv_one (q : Q) : (q / 1 == q)%Q.
Proof.
  unfold Qdiv. change (/ 1)%Q with 1%Q. apply Qmult_1_r.
Qed.

Lemma int_div_pos (v : Z) (avg : Q) :
  (0 < avg)%Q -> Rescaler.int_div v avg = Ok (py_int (inject_Z v / avg)).
Proof.
  intro H. unfold Rescaler.int_div.
  destruct (Qeq_bool avg 0) eqn:E; [|reflexivity].
  apply Qeq_bool_iff in E. rewrite E in H. exfalso. exact (Qlt_irrefl _ H).
Qed.

Lemma int_div_one (v : Z) (avg : Q) :
  (avg == 1)%Q -> Rescaler.int_div v avg = Ok v.
Proof.
  intro H. rewrite int_div_pos by (rewrite H; reflexivity).
  f_equal. rewrite <- (py_int_inject v) at 2. apply py_int_proper.
  rewrite H. apply Qdiv_one.
Qed.




(** The same parameters on images that were not resized. *)
Example rescale_unscaled :
  Rescaler.rescale example_params [1%Q; 1%Q; 1%Q] = Ok example_params.
Proof. reflexivity. Qed.

(** An empty training set leaves no mean to divide by. *)
Example rescale_no_image :
  Rescaler.rescale example_params [] = Raise ValueError.
Proof. reflexivity. Qed.

(** A mean scale of zero makes the quotient infinite, which [int]
    refuses. *)
Example rescale_zero_scale :
  Rescaler.rescale example_params [0%Q] = Raise OverflowError.
Proof. reflexivity. Qed.

(** ** The search and the refinement *)

Lemma score_ge_refl (a : Optimizer.score) : Optimizer.score_ge a a.
Proof.
  destruct a; simpl; [exact I | apply Qle_refl].
Qed.

Lemma score_ge_trans (a b c : Optimizer.score) :
  Optimizer.score_ge a b -> Optimizer.score_ge b c -> Optimizer.score_ge a c.
Proof.
  destruct a, b, c; simpl; try tauto. intros H1 H2.
  eapply Qle_trans; eassumption.
Qed.

Lemma gt_score_ge (q : Q) (s : Optimizer.score) :
  Optimizer.gt_score q s = true -> Optimizer.score_ge (Optimizer.Fin q) s.
Proof.
  destruct s; simpl; [trivial|]. intro H. apply Qltb_lt in H.
  apply Qlt_le_weak. exact H.
Qed.

Section SearchFacts.

Import Optimizer.

Variable evaluate_params : DetectorParams -> Evaluation.

Local Abbreviation objective_function :=
  (Optimizer.objective_function evaluate_params).
Local Abbreviation run_search := (Optimizer.run_search evaluate_params).
Local Abbreviation global_phase := (Optimizer.global_phase evaluate_params).
Local Abbreviation score_of := (Optimizer.score_of evaluate_params).

Lemma objective_function_best (tr : Tracker) (x : ParamValues) :
  let tr' := fst (objective_function tr x) in
  (gt_score (score_of x) (best_score tr) = true ->
   best_params tr' = Some (params_of_values x) /\
   best_score tr' = Fin (score_of x)) /\
  (gt_score (score_of x) (best_score tr) = false ->
   best_params tr' = best_params tr /\ best_score tr' = best_score tr).
Proof.
  unfold Optimizer.objective_function, Optimizer.score_of. cbv zeta.
  destruct (gt_score _ (best_score tr));
    destruct (gt_score _ (best_detection_score tr));
    destruct (gt_score _ (best_color_score tr)); simpl;
    split; intro H; try discriminate; split; reflexivity.
Qed.

Lemma run_search_snoc (pts : list ParamValues) (x : ParamValues)
  (tr : Tracker) :
  run_search (pts ++ [x]) tr = fst (objective_function (run_search pts tr) x).
Proof.
  unfold Optimizer.run_search. rewrite fold_left_app. reflexivity.
Qed.

(** After the evaluations of [pts], the tracker holds the first of the
    best-scoring points, and nothing before any evaluation. *)
Lemma run_search_tracks (pts : list ParamValues) :
  let tr := run_search pts init_tracker in
  (pts = [] /\ best_params tr = None /\ best_score tr = NegInf) \/
  (exists x,
      In x pts /\
      best_params tr = Some (params_of_values x) /\
      best_score tr = Fin (score_of x) /\
      forall y, In y pts -> (score_of y <= score_of x)%Q).
Proof.
  induction pts as [|x pts IH] using rev_ind.
  - left. repeat split.
  - right. rewrite run_search_snoc.
    destruct (objective_function_best (run_search pts init_tracker) x)
      as [Hup Hkeep].
    cbv zeta in IH, Hup, Hkeep.
    destruct (gt_score (score_of x) (best_score (run_search pts init_tracker)))
      eqn:E.
    + destruct (Hup eq_refl) as [Hp Hs]. exists x. repeat split.
      * apply in_or_app. right. left. reflexivity.
      * exact Hp.
      * exact Hs.
      * intros y Hy. apply in_app_or in Hy. destruct Hy as [Hy|[<-|[]]].
        -- destruct IH as [(-> & _)|(b & _ & _ & Hb & Hmax)]; [contradiction|].
           rewrite Hb in E. simpl in E. apply Qltb_lt in E.
           apply Qlt_le_weak. eapply Qle_lt_trans; [apply (Hmax y Hy)|exact E].
        -- apply Qle_refl.
    + destruct (Hkeep eq_refl) as [Hp Hs].
      destruct IH as [(_ & _ & Hb)|(b & Hin & Hbp & Hb & Hmax)].
      * rewrite Hb in E. discriminate.
      * exists b. repeat split.
        -- apply in_or_app. left. exact Hin.
        -- rewrite Hp. exact Hbp.
        -- rewrite Hs. exact Hb.
        -- intros y Hy. apply in_app_or in Hy. destruct Hy as [Hy|[<-|[]]].
           ++ exact (Hmax y Hy).
           ++ rewrite Hb in E. simpl in E. apply Qltb_ge in E. exact E.
Qed.

(** C8. When the search is interrupted after at least one evaluation,
    [optimize] goes on from the tracked best parameters, which are
    those of an evaluated point that no evaluated point outscores,
    with their score, under the source label of an interrupted run;
    when it is interrupted before any evaluation, [optimize] raises
    [ValueError]. *)
Theorem C8_interrupt_falls_back :
  (forall (x0 : ParamValues) (pts : list ParamValues),
      exists x,
        In x (x0 :: pts) /\
        (forall y, In y (x0 :: pts) -> (score_of y <= score_of x)%Q) /\
        best_params (run_search (x0 :: pts) init_tracker)
        = Some (params_of_values x) /\
        best_score (run_search (x0 :: pts) init_tracker) = Fin (score_of x) /\
        global_phase (x0 :: pts) KeyboardInterrupt
        = Ok (Some (params_of_values x), Fin (score_of x),
              "Interrupted - Tracked Best"%string)) /\
  global_phase [] KeyboardInterrupt = Raise ValueError.
Proof.
  split; [|reflexivity].
  intros x0 pts.
  destruct (run_search_tracks (x0 :: pts))
    as [(E & _)|(x & Hin & Hp & Hs & Hmax)]; [discriminate|].
  exists x. repeat split; try assumption.
  unfold Optimizer.global_phase, Optimizer.select_start.
  rewrite Hp, Hs. reflexivity.
Qed.

End SearchFacts.

Section RefinementFacts.

Import Optimizer.

Variable evaluate_params : DetectorParams -> Evaluation.
Variable rng : Type.
Variable neighbor_params : DetectorParams -> rng -> DetectorParams * rng.

Local Abbreviation local_step :=
  (Optimizer.local_step evaluate_params rng neighbor_params).
Local Abbreviation local_loop :=
  (Optimizer.local_loop evaluate_params rng neighbor_params).
Local Abbreviation refine :=
  (Optimizer.refine evaluate_params rng neighbor_params).
Local Abbreviation non_improving :=
  (Optimizer.non_improving evaluate_params rng neighbor_params).

Local Abbreviation candidate :=
  (Optimizer.candidate rng neighbor_params).
Local Abbreviation candidate_score :=
  (Optimizer.candidate_score evaluate_params rng neighbor_params).

Lemma local_step_best (st : LocalState rng) :
  score_ge (ls_best_score (local_step st)) (ls_best_score st).
Proof.
  unfold Optimizer.local_step.
  destruct (neighbor_params (current_params st) (rand st)) as [nb g].
  destruct (gt_score _ (current_score st)).
  - destruct (gt_score _ (ls_best_score st)) eqn:E; simpl.
    + apply gt_score_ge. exact E.
    + apply score_ge_refl.
  - destruct (10 <? S (no_improvement_count st))%nat.
    + destruct (neighbor_params (best_params_raw st) g). simpl.
      apply score_ge_refl.
    + simpl. apply score_ge_refl.
Qed.

Lemma local_loop_best (n : nat) (st : LocalState rng) :
  score_ge (ls_best_score (local_loop n st)) (ls_best_score st).
Proof.
  induction n as [|n IH]; simpl.
  - apply score_ge_refl.
  - eapply score_ge_trans; [apply local_step_best | exact IH].
Qed.

(** An iteration that improves on the current point. *)
Lemma local_step_accepts (st : LocalState rng) :
  gt_score (candidate_score st) (current_score st) = true ->
  current_params (local_step st) = candidate st /\
  current_score (local_step st) = Fin (candidate_score st) /\
  no_improvement_count (local_step st) = 0%nat /\
  improvements (local_step st) = S (improvements st).
Proof.
  unfold Optimizer.local_step, Optimizer.candidate_score, Optimizer.candidate.
  destruct (neighbor_params (current_params st) (rand st)) as [nb g].
  simpl. intros ->.
  destruct (gt_score _ (ls_best_score st)); simpl; repeat split.
Qed.

(** An iteration that does not. *)
Lemma local_step_rejects (st : LocalState rng) :
  gt_score (candidate_score st) (current_score st) = false ->
  improvements (local_step st) = improvements st /\
  best_params_raw (local_step st) = best_params_raw st /\
  ls_best_score (local_step st) = ls_best_score st /\
  best_source (local_step st) = best_source st /\
  (((no_improvement_count st < 10)%nat ->
    current_params (local_step st) = current_params st /\
    current_score (local_step st) = current_score st /\
    no_improvement_count (local_step st) = S (no_improvement_count st)) /\
   ((10 <= no_improvement_count st)%nat ->
    current_params (local_step st)
    = fst (neighbor_params (best_params_raw st)
             (snd (neighbor_params (current_params st) (rand st)))) /\
    current_score (local_step st) = ls_best_score st /\
    no_improvement_count (local_step st) = 0%nat)).
Proof.
  unfold Optimizer.local_step, Optimizer.candidate_score, Optimizer.candidate.
  destruct (neighbor_params (current_params st) (rand st)) as [nb g].
  simpl. intros ->.
  destruct (10 <? S (no_improvement_count st))%nat eqn:E.
  - apply Nat.ltb_lt in E.
    destruct (neighbor_params (best_params_raw st) g) as [jump g']. simpl.
    repeat split; intros; try lia.
  - apply Nat.ltb_ge in E. simpl.
    repeat split; intros; try lia.
Qed.

(** C7. The best score of the refinement never goes down: after any
    number of iterations, and at the end of [refine] for any seed,
    seed score and iteration count, it is at least what it was at the
    start. The neighbour an iteration evaluates becomes the current
    point when its score is strictly above the current score, and then
    only: otherwise the iteration counts no improvement and the
    current point stays, or is replaced by a perturbation of the best
    point when the loop is stuck. *)
Theorem C7_refinement_never_regresses :
  (forall (n : nat) (st : LocalState rng),
      score_ge (ls_best_score (local_loop n st)) (ls_best_score st)) /\
  (forall (local_iterations : Z) (seed : DetectorParams) (seed_score : score)
          (src : string) (g : rng),
      score_ge
        (snd (fst (refine local_iterations (Some seed, seed_score, src) g)))
        seed_score) /\
  (forall st : LocalState rng,
      (gt_score (candidate_score st) (current_score st) = true ->
       current_params (local_step st) = candidate st /\
       current_score (local_step st) = Fin (candidate_score st) /\
       improvements (local_step st) = S (improvements st)) /\
      (gt_score (candidate_score st) (current_score st) = false ->
       improvements (local_step st) = improvements st /\
       ls_best_score (local_step st) = ls_best_score st /\
       (current_params (local_step st) = current_params st /\
        current_score (local_step st) = current_score st
        \/
        (10 <= no_improvement_count st)%nat /\
        current_params (local_step st)
        = fst (neighbor_params (best_params_raw st)
                 (snd (neighbor_params (current_params st) (rand st)))) /\
        current_score (local_step st) = ls_best_score st))).
Proof.
  split; [exact local_loop_best|]. split.
  - intros n seed seed_score src g. unfold Optimizer.refine.
    destruct (0 <? n); simpl.
    + apply (local_loop_best _ (local_init rng seed seed_score src g)).
    + apply score_ge_refl.
  - intro st. split; intro H.
    + destruct (local_step_accepts st H) as (Hp & Hs & _ & Hi).
      repeat split; assumption.
    + destruct (local_step_rejects st H) as (Hi & _ & Hb & _ & Hlow & Hhigh).
      split; [exact Hi|]. split; [exact Hb|].
      destruct (Nat.lt_ge_cases (no_improvement_count st) 10) as [L|G].
      * left. destruct (Hlow L) as (Hp & Hs & _). split; assumption.
      * right. destruct (Hhigh G) as (Hp & Hs & _). repeat split; assumption.
Qed.

Lemma local_loop_S (n : nat) (st : LocalState rng) :
  local_loop (S n) st = local_step (local_loop n st).
Proof. reflexivity. Qed.

(** While the loop is stuck and the counter is below its limit,
    nothing moves but the counter. *)
Lemma stuck_prefix (st : LocalState rng) :
  no_improvement_count st = 0%nat ->
  (forall k, (k <= 10)%nat -> non_improving (local_loop k st)) ->
  forall k, (k <= 10)%nat ->
    current_params (local_loop k st) = current_params st /\
    current_score (local_loop k st) = current_score st /\
    no_improvement_count (local_loop k st) = k /\
    best_params_raw (local_loop k st) = best_params_raw st /\
    ls_best_score (local_loop k st) = ls_best_score st.
Proof.
  intros H0 Hstuck. induction k as [|k IH]; intro Hk.
  - simpl. repeat split. exact H0.
  - destruct IH as (Hp & Hs & Hc & Hbp & Hbs); [lia|].
    assert (Hk' : (k <= 10)%nat) by lia.
    destruct (local_step_rejects _ (Hstuck k Hk'))
      as (_ & Hbp' & Hbs' & _ & Hlow & _).
    destruct Hlow as (Hp' & Hs' & Hc'); [lia|].
    rewrite local_loop_S, Hp', Hs', Hc', Hbp', Hbs'.
    repeat split; congruence.
Qed.

(** C5, amended. Counting from an iteration that reset the counter,
    ten iterations in a row without improvement leave the current
    point and the current score where they were, with the counter at
    ten; it is the eleventh such iteration that sets the current point
    to a fresh perturbation of the best parameters, the current score
    to the best score and the counter back to zero. *)
Theorem C5_escape_on_eleventh (st : LocalState rng)
  (H0 : no_improvement_count st = 0%nat)
  (Hstuck : forall k, (k <= 10)%nat -> non_improving (local_loop k st)) :
  (forall k, (k <= 10)%nat ->
     current_params (local_loop k st) = current_params st /\
     current_score (local_loop k st) = current_score st /\
     no_improvement_count (local_loop k st) = k) /\
  current_params (local_loop 11 st)
  = fst (neighbor_params (best_params_raw st)
           (snd (neighbor_params (current_params st)
                   (rand (local_loop 10 st))))) /\
  current_score (local_loop 11 st) = ls_best_score st /\
  no_improvement_count (local_loop 11 st) = 0%nat.
Proof.
  pose proof (stuck_prefix st H0 Hstuck) as Hpre.
  split.
  - intros k Hk. destruct (Hpre k Hk) as (Hp & Hs & Hc & _).
    repeat split; assumption.
  - destruct (Hpre 10%nat (Nat.le_refl _)) as (Hp & Hs & Hc & Hbp & Hbs).
    destruct (local_step_rejects _ (Hstuck 10%nat (Nat.le_refl _)))
      as (_ & _ & _ & _ & _ & Hhigh).
    destruct Hhigh as (Hp' & Hs' & Hc'); [lia|].
    rewrite (local_loop_S 10 st), Hp', Hs', Hc', Hbp, Hbs, Hp.
    repeat split.
Qed.

End RefinementFacts.

(** *** The refinement on concrete inputs *)

(** C5 as stated fails. On blank images every iteration scores -10 and
    none improves: after ten of them the counter is at ten and the
    current point is still the seed, not a perturbation of the best
    point; the next iteration makes the jump. *)
Lemma C5_counterexample_ten_iterations :
  let step := Optimizer.local_step blank_evaluation nat bump_minDist in
  let st0 :=
    Optimizer.local_init nat example_params (Optimizer.Fin (-10))
      "Tracked Best" 0%nat in
  let st10 := Optimizer.local_loop blank_evaluation nat bump_minDist 10 st0 in
  Forall
    (fun k =>
       Optimizer.non_improving blank_evaluation nat bump_minDist
         (Optimizer.local_loop blank_evaluation nat bump_minDist k st0))
    (seq 0 10) /\
  Optimizer.no_improvement_count st10 = 10%nat /\
  Optimizer.current_params st10 = example_params /\
  Optimizer.current_params st10
  <> fst (bump_minDist (Optimizer.best_params_raw st10) (Optimizer.rand st10)) /\
  Optimizer.no_improvement_count (step st10) = 0%nat /\
  Optimizer.current_params (step st10)
  = fst (bump_minDist example_params 11%nat).
Proof.
  cbv zeta. split; [|split; [|split; [|split; [|split]]]].
  - repeat (constructor; [vm_compute; reflexivity|]). constructor.
  - vm_compute. reflexivity.
  - vm_compute. reflexivity.
  - intro H. apply (f_equal minDist) in H. vm_compute in H. discriminate H.
  - vm_compute. reflexivity.
  - vm_compute. reflexivity.
Qed.

Lemma C5_witness :
  let st0 :=
    Optimizer.local_init nat example_params (Optimizer.Fin (-10))
      "Tracked Best" 0%nat in
  let loop := Optimizer.local_loop blank_evaluation nat bump_minDist in
  (forall k, (k <= 10)%nat ->
     Optimizer.current_params (loop k st0) = Optimizer.current_params st0 /\
     Optimizer.current_score (loop k st0) = Optimizer.current_score st0 /\
     Optimizer.no_improvement_count (loop k st0) = k) /\
  Optimizer.current_params (loop 11%nat st0)
  = fst (bump_minDist (Optimizer.best_params_raw st0)
           (snd (bump_minDist (Optimizer.current_params st0)
                   (Optimizer.rand (loop 10%nat st0))))) /\
  Optimizer.current_score (loop 11%nat st0) = Optimizer.ls_best_score st0 /\
  Optimizer.no_improvement_count (loop 11%nat st0) = 0%nat.
Proof.
  apply (C5_escape_on_eleventh blank_evaluation nat bump_minDist).
  - reflexivity.
  - intros k Hk. do 11 (destruct k as [|k]; [vm_compute; reflexivity|]). lia.
Defined.

(** With a score that grows with [minDist] every iteration improves,
    and the source label is marked once. *)
Example refine_improves :
  Optimizer.refine minDist_evaluation nat bump_minDist 3
    (Some example_params, Optimizer.Fin 30, "Tracked Best"%string) 0%nat
  = (Some (fst (bump_minDist (fst (bump_minDist (fst (bump_minDist
             example_params 0%nat)) 0%nat)) 0%nat)),
     Optimizer.Fin (inject_Z 45), "Tracked Best + Local Search"%string).
Proof. vm_compute. reflexivity. Qed.

(** Without iterations the start is returned as it is. *)
Example refine_disabled :
  Optimizer.refine minDist_evaluation nat bump_minDist 0
    (Some example_params, Optimizer.Fin 30, "Tracked Best"%string) 0%nat
  = (Some example_params, Optimizer.Fin 30, "Tracked Best"%string).
Proof. vm_compute. reflexivity. Qed.

(** Three evaluations, interrupted: the second point is the best. *)
Example interrupted_after_three :
  Optimizer.global_phase minDist_evaluation
    [example_point 20; example_point 40; example_point 30]
    Optimizer.KeyboardInterrupt
  = Ok (Some (Optimizer.params_of_values (example_point 40)),
        Optimizer.Fin (inject_Z 40), "Interrupted - Tracked Best"%string).
Proof. vm_compute. reflexivity. Qed.
(** * Further properties of the code *)

(** ** Ranges and slices *)

Lemma py_range_In (lo hi x : Z) : In x (py_range lo hi) <-> lo <= x < hi.
Proof.
  unfold py_range. rewrite in_map_iff. split.
  - intros (i & <- & Hi). apply in_seq in Hi. lia.
  - intro H. exists (Z.to_nat (x - lo)). split; [lia|].
    apply in_seq. lia.
Qed.

Lemma py_range_length (lo hi : Z) :
  length (py_range lo hi) = Z.to_nat (hi - lo).
Proof.
  unfold py_range. rewrite length_map, length_seq. reflexivity.
Qed.

Lemma slice_to_from {A : Type} (k : Z) (l : list A) :
  slice_to k l ++ slice_from k l = l.
Proof.
  unfold slice_to, slice_from. apply firstn_skipn.
Qed.

(** ** [classify_circle] *)

Section CircleFacts.

Import CircleClassifier.

Lemma offsets_In (outer dy dx : Z) :
  In (dy, dx) (offsets outer) <->
  - outer <= dy <= outer /\ - outer <= dx <= outer.
Proof.
  unfold offsets. rewrite in_flat_map. split.
  - intros (y & Hy & Hin). apply in_map_iff in Hin.
    destruct Hin as (x & E & Hx). injection E as <- <-.
    apply py_range_In in Hy, Hx. lia.
  - intros [Hy Hx]. exists dy. split; [apply py_range_In; lia|].
    apply in_map. apply py_range_In. lia.
Qed.

Lemma offsets_length (outer : Z) :
  length (offsets outer)
  = (Z.to_nat (2 * outer + 1) * Z.to_nat (2 * outer + 1))%nat.
Proof.
  unfold offsets.
  assert (H : forall (l l' : list Z),
             length (flat_map (fun dy => map (fun dx => (dy, dx)) l') l)
             = (length l * length l')%nat).
  { intros l l'. induction l as [|y l IH]; simpl; [reflexivity|].
    rewrite length_app, length_map, IH. reflexivity. }
  rewrite H, py_range_length. f_equal; f_equal; lia.
Qed.

Lemma outside_ring_false (radius : Z) (o : Z * Z) :
  outside_ring (inner_radius radius) (outer_radius radius) o = false
  <-> in_ring radius o.
Proof.
  unfold outside_ring, in_ring. destruct o as [dy dx]. simpl.
  rewrite orb_false_iff, !Z.ltb_ge. tauto.
Qed.

Lemma radii_ordered (radius : Z) :
  2 <= inner_radius radius <= outer_radius radius.
Proof.
  unfold inner_radius, outer_radius, py_int. simpl.
  rewrite !Z.mul_1_r.
  Z.to_euclidean_division_equations. lia.
Qed.

(** What one step does to the counters. *)
Lemma sample_step_counts img cx cy inner outer params (c : Counts) o :
  let c' := sample_step img cx cy inner outer params c o in
  (red_count c <= red_count c')%nat /\
  (blue_count c <= blue_count c')%nat /\
  (total_samples c <= total_samples c' <= S (total_samples c))%nat /\
  (red_count c' + blue_count c' + total_samples c
   <= red_count c + blue_count c + total_samples c')%nat.
Proof.
  unfold sample_step.
  destruct (outside_ring inner outer o); [simpl; lia|].
  destruct (out_of_bounds img _ _); [simpl; lia|].
  destruct (pixel img _ _) as [[h s] v].
  destruct (ColorClassifier.is_red h s v params); [simpl; lia|].
  destruct (ColorClassifier.is_blue h s v params); simpl; lia.
Qed.

Lemma fold_counts img cx cy inner outer params (l : list (Z * Z)) :
  forall c : Counts,
    let c' := fold_left (sample_step img cx cy inner outer params) l c in
    (red_count c <= red_count c')%nat /\
    (blue_count c <= blue_count c')%nat /\
    (total_samples c <= total_samples c'
     <= total_samples c + length l)%nat /\
    (red_count c' + blue_count c' + total_samples c
     <= red_count c + blue_count c + total_samples c')%nat.
Proof.
  induction l as [|o l IH]; intro c; simpl; [lia|].
  pose proof (sample_step_counts img cx cy inner outer params c o) as Hs.
  specialize (IH (sample_step img cx cy inner outer params c o)).
  cbv zeta in Hs, IH. lia.
Qed.

(** X1. The samples that match red and those that match blue are
    disjoint parts of the samples taken, and no more samples are taken
    than the bounding square of the outer radius has pixels. *)
Theorem X1_sample_counts (img : HsvImage) (cx cy radius : Z)
  (params : DetectorParams) :
  let c := count_samples img cx cy radius params in
  (red_count c + blue_count c <= total_samples c)%nat /\
  Z.of_nat (total_samples c)
  <= (2 * outer_radius radius + 1) * (2 * outer_radius radius + 1).
Proof.
  unfold count_samples. cbv zeta.
  pose proof (fold_counts img cx cy (inner_radius radius) (outer_radius radius)
                params (offsets (outer_radius radius)) (mkCounts 0 0 0)) as H.
  cbv zeta in H. simpl in H. rewrite offsets_length in H.
  pose proof (radii_ordered radius). split; [lia|]. nia.
Qed.

Lemma Qnat_lt (a b : nat) : (Qnat a < Qnat b)%Q <-> (a < b)%nat.
Proof.
  unfold Qnat, Qlt, inject_Z. cbn [Qnum Qden]. lia.
Qed.

Lemma Qnat_div_mul (a t : nat) :
  (0 < t)%nat -> (Qnat a / Qnat t * Qnat t == Qnat a)%Q.
Proof.
  intro Ht. apply Qnat_pos in Ht. field. intro E. rewrite E in Ht.
  exact (Qlt_irrefl _ Ht).
Qed.

Lemma ratio_ltb (a b t : nat) :
  (0 < t)%nat ->
  Qltb (Qnat a / Qnat t) (Qnat b / Qnat t) = (a <? b)%nat.
Proof.
  intro Ht. apply Bool.eq_iff_eq_true.
  rewrite Qltb_lt, Nat.ltb_lt, <- Qnat_lt.
  rewrite <- (Qmult_lt_r _ _ (Qnat t) (Qnat_pos t Ht)).
  rewrite !Qnat_div_mul by exact Ht. reflexivity.
Qed.

Lemma threshold_ltb (a t : nat) :
  (0 < t)%nat ->
  Qltb (3 # 10) (Qnat a / Qnat t) = (3 * t <? 10 * a)%nat.
Proof.
  intro Ht. apply Bool.eq_iff_eq_true.
  rewrite Qltb_lt, Nat.ltb_lt.
  rewrite <- (Qmult_lt_r _ _ (Qnat t) (Qnat_pos t Ht)).
  rewrite Qnat_div_mul by exact Ht.
  unfold Qnat, Qlt, Qmult, inject_Z. cbn [Qnum Qden]. lia.
Qed.

(** X2. The decision on the counters: red needs more than three
    tenths of the samples and strictly more samples than blue, blue
    the same the other way round; equal counts, or no sample at all,
    give unknown. *)
Theorem X2_decide_by_counts (c : Counts) :
  (decide c = "red"%string <->
   (3 * total_samples c < 10 * red_count c)%nat /\
   (blue_count c < red_count c)%nat /\ (0 < total_samples c)%nat) /\
  (decide c = "blue"%string <->
   (3 * total_samples c < 10 * blue_count c)%nat /\
   (red_count c < blue_count c)%nat /\ (0 < total_samples c)%nat) /\
  (red_count c = blue_count c -> decide c = "unknown"%string) /\
  (total_samples c = 0%nat -> decide c = "unknown"%string).
Proof.
  unfold decide.
  destruct (Nat.eqb_spec (total_samples c) 0) as [E0|E0].
  - repeat split; try discriminate; try reflexivity; lia.
  - assert (Hpos : (0 < total_samples c)%nat) by lia.
    cbv zeta. rewrite !threshold_ltb, !ratio_ltb by exact Hpos.
    destruct (Nat.ltb_spec (3 * total_samples c) (10 * red_count c));
      destruct (Nat.ltb_spec (blue_count c) (red_count c));
      destruct (Nat.ltb_spec (3 * total_samples c) (10 * blue_count c));
      destruct (Nat.ltb_spec (red_count c) (blue_count c));
      simpl; repeat split; try discriminate; try reflexivity; lia.
Qed.

Lemma fold_left_agree {S A : Type} (f g : S -> A -> S) (l : list A) :
  (forall a, In a l -> forall s, f s a = g s a) ->
  forall s, fold_left f l s = fold_left g l s.
Proof.
  induction l as [|a l IH]; intros H s; simpl; [reflexivity|].
  rewrite (H a (or_introl eq_refl)). apply IH.
  intros b Hb. apply H. right. exact Hb.
Qed.

(** X3. Only the ring between the inner and the outer radius is
    looked at: two images of the same shape that agree on the pixels
    of the ring around the centre are classified alike, whatever
    their pixels elsewhere (the metallic centre of the pok among
    them). *)
Theorem X3_only_the_ring_counts (img1 img2 : HsvImage) (cx cy radius : Z)
  (params : DetectorParams)
  (Hrows : rows img1 = rows img2) (Hcols : cols img1 = cols img2)
  (Hring : forall o, in_ring radius o ->
             pixel img1 (cy + fst o) (cx + snd o)
             = pixel img2 (cy + fst o) (cx + snd o)) :
  classify_circle img1 cx cy radius params
  = classify_circle img2 cx cy radius params.
Proof.
  unfold classify_circle, count_samples. cbv zeta. f_equal.
  apply fold_left_agree. intros o _ c. unfold sample_step.
  destruct (outside_ring _ _ o) eqn:E; [reflexivity|].
  apply outside_ring_false in E.
  unfold out_of_bounds. rewrite Hrows, Hcols, (Hring o E). reflexivity.
Qed.

Lemma fold_no_sample img cx cy inner outer params (l : list (Z * Z)) :
  (forall o, In o l ->
     outside_ring inner outer o = false ->
     out_of_bounds img (cx + snd o) (cy + fst o) = true) ->
  forall c, fold_left (sample_step img cx cy inner outer params) l c = c.
Proof.
  induction l as [|o l IH]; intros H c; simpl; [reflexivity|].
  assert (E : sample_step img cx cy inner outer params c o = c).
  { unfold sample_step. destruct (outside_ring inner outer o) eqn:Eo;
      [reflexivity|].
    rewrite (H o (or_introl eq_refl) Eo). reflexivity. }
  rewrite E. apply IH. intros o' Ho'. apply H. right. exact Ho'.
Qed.

(** X4. A circle whose bounding square lies beside the image, or an
    image without pixels, gives no sample, and the colour is unknown;
    no pixel outside the image is read. *)
Theorem X4_outside_the_image (img : HsvImage) (cx cy radius : Z)
  (params : DetectorParams)
  (Hout : cx + outer_radius radius < 0 \/ cols img <= cx - outer_radius radius
          \/ cy + outer_radius radius < 0
          \/ rows img <= cy - outer_radius radius
          \/ cols img <= 0 \/ rows img <= 0) :
  count_samples img cx cy radius params = mkCounts 0 0 0 /\
  classify_circle img cx cy radius params = "unknown"%string.
Proof.
  assert (E : count_samples img cx cy radius params = mkCounts 0 0 0).
  { unfold count_samples. cbv zeta. apply fold_no_sample.
    intros [dy dx] Hin _. apply offsets_In in Hin.
    unfold out_of_bounds. simpl.
    rewrite !orb_true_iff, !Z.ltb_lt, !Z.leb_le. lia. }
  split; [exact E|]. unfold classify_circle. rewrite E. reflexivity.
Qed.

(** The counters over a ring of which every pixel read satisfies
    [is_red], or every pixel read satisfies [is_blue] and not
    [is_red]. *)
Lemma fold_uniform img cx cy inner outer params (red : bool)
  (l : list (Z * Z)) :
  (forall o, In o l ->
     outside_ring inner outer o = false ->
     out_of_bounds img (cx + snd o) (cy + fst o) = false ->
     let '(h, s, v) := pixel img (cy + fst o) (cx + snd o) in
     if red then ColorClassifier.is_red h s v params = true
     else ColorClassifier.is_red h s v params = false /\
          ColorClassifier.is_blue h s v params = true) ->
  forall c,
    let c' := fold_left (sample_step img cx cy inner outer params) l c in
    (total_samples c' - total_samples c
     = (if red then red_count c' - red_count c
        else blue_count c' - blue_count c))%nat /\
    (if red then blue_count c' = blue_count c
     else red_count c' = red_count c) /\
    (forall o, In o l -> outside_ring inner outer o = false ->
       out_of_bounds img (cx + snd o) (cy + fst o) = false ->
       (total_samples c < total_samples c')%nat).
Proof.
  induction l as [|o l IH]; intros H c.
  - simpl. repeat split; try (destruct red; lia); intros o [].
  - simpl fold_left.
    pose proof (H o (or_introl eq_refl)) as Ho.
    specialize (IH (fun o' Ho' => H o' (or_intror Ho'))
                   (sample_step img cx cy inner outer params c o)).
    pose proof (fold_counts img cx cy inner outer params l
                  (sample_step img cx cy inner outer params c o)) as Hmono.
    cbv zeta in IH, Hmono |- *.
    destruct IH as (IH1 & IH2 & IH3).
    remember (sample_step img cx cy inner outer params c o) as c1 eqn:Ec1.
    assert (Hstep :
      (total_samples c1 - total_samples c
       = (if red then red_count c1 - red_count c
          else blue_count c1 - blue_count c))%nat /\
      (if red then blue_count c1 = blue_count c
       else red_count c1 = red_count c) /\
      (total_samples c <= total_samples c1)%nat /\
      (red_count c <= red_count c1)%nat /\
      (blue_count c <= blue_count c1)%nat /\
      (outside_ring inner outer o = false ->
       out_of_bounds img (cx + snd o) (cy + fst o) = false ->
       (total_samples c < total_samples c1)%nat)).
    { subst c1. unfold sample_step.
      destruct (outside_ring inner outer o);
        [repeat split; try (destruct red; lia); discriminate|].
      destruct (out_of_bounds img (cx + snd o) (cy + fst o));
        [repeat split; try (destruct red; lia); discriminate|].
      specialize (Ho eq_refl eq_refl).
      destruct (pixel img (cy + fst o) (cx + snd o)) as [[h s] v].
      destruct red.
      - rewrite Ho. cbn [red_count blue_count total_samples].
        repeat split; intros; lia.
      - destruct Ho as [-> ->]. cbn [red_count blue_count total_samples].
        repeat split; intros; lia. }
    destruct Hstep as (S1 & S2 & S3 & S4 & S5 & S6).
    repeat split.
    + destruct red; lia.
    + destruct red; congruence.
    + intros o' [<-|Ho'] E1 E2.
      * specialize (S6 E1 E2). lia.
      * specialize (IH3 o' Ho' E1 E2). lia.
Qed.

(** X5. A circle whose bounding square lies inside the image and
    whose ring pixels all match red is classified red; if they all
    match blue and none matches red, it is classified blue. *)
Theorem X5_uniform_ring (img : HsvImage) (cx cy radius : Z)
  (params : DetectorParams) (red : bool)
  (Hx : outer_radius radius <= cx < cols img - outer_radius radius)
  (Hy : outer_radius radius <= cy < rows img - outer_radius radius)
  (Hpix : forall o, in_ring radius o ->
            let '(h, s, v) := pixel img (cy + fst o) (cx + snd o) in
            if red then ColorClassifier.is_red h s v params = true
            else ColorClassifier.is_red h s v params = false /\
                 ColorClassifier.is_blue h s v params = true) :
  classify_circle img cx cy radius params
  = (if red then "red" else "blue")%string.
Proof.
  pose proof (radii_ordered radius) as Hr.
  pose proof (fold_uniform img cx cy (inner_radius radius)
                (outer_radius radius) params red
                (offsets (outer_radius radius))) as H.
  specialize (H (fun o _ E _ => Hpix o (proj1 (outside_ring_false radius o) E))
                (mkCounts 0 0 0)).
  cbv zeta in H. destruct H as (H1 & H2 & H3).
  assert (Hpos : (0 < total_samples (count_samples img cx cy radius params))%nat).
  { apply (H3 (0, outer_radius radius)).
    - apply offsets_In. lia.
    - apply outside_ring_false. unfold in_ring. simpl. nia.
    - unfold out_of_bounds. simpl.
      rewrite !orb_false_iff, !Z.ltb_ge, !Z.leb_gt. lia. }
  unfold classify_circle.
  fold (count_samples img cx cy radius params) in H1, H2.
  simpl in H1, H2.
  unfold decide.
  destruct (Nat.eqb_spec (total_samples (count_samples img cx cy radius params)) 0)
    as [E0|_]; [lia|].
  cbv zeta. rewrite !threshold_ltb, !ratio_ltb by exact Hpos.
  destruct red.
  - assert (E1 : (3 * total_samples (count_samples img cx cy radius params)
                  <? 10 * red_count (count_samples img cx cy radius params))%nat
                 = true) by (apply Nat.ltb_lt; lia).
    assert (E2 : (blue_count (count_samples img cx cy radius params)
                  <? red_count (count_samples img cx cy radius params))%nat
                 = true) by (apply Nat.ltb_lt; lia).
    rewrite E1, E2. reflexivity.
  - assert (E1 : (3 * total_samples (count_samples img cx cy radius params)
                  <? 10 * blue_count (count_samples img cx cy radius params))%nat
                 = true) by (apply Nat.ltb_lt; lia).
    assert (E2 : (red_count (count_samples img cx cy radius params)
                  <? blue_count (count_samples img cx cy radius params))%nat
                 = true) by (apply Nat.ltb_lt; lia).
    assert (E3 : (blue_count (count_samples img cx cy radius params)
                  <? red_count (count_samples img cx cy radius params))%nat
                 = false) by (apply Nat.ltb_ge; lia).
    rewrite E1, E2, E3, andb_false_r. reflexivity.
Qed.

End CircleFacts.

(** ** The scorer: bounds and the F1 formula *)

Lemma Qnat_nonneg (n : nat) : (0 <= Qnat n)%Q.
Proof.
  unfold Qnat, Qle, inject_Z. cbn [Qnum Qden]. lia.
Qed.

Lemma Qnat_le (a b : nat) : (a <= b)%nat -> (Qnat a <= Qnat b)%Q.
Proof.
  unfold Qnat, Qle, inject_Z. cbn [Qnum Qden]. lia.
Qed.

Lemma Qnat_plus (a b : nat) : (Qnat (a + b) == Qnat a + Qnat b)%Q.
Proof.
  unfold Qnat. rewrite Nat2Z.inj_add, inject_Z_plus. reflexivity.
Qed.

Lemma Qnat_S (n : nat) : (Qnat (S n) == 1 + Qnat n)%Q.
Proof.
  change (S n) with (1 + n)%nat. apply Qnat_plus.
Qed.

Lemma Qdiv_unit_interval (a b : Q) :
  (0 <= a)%Q -> (a <= b)%Q -> (0 < b)%Q -> (0 <= a / b <= 1)%Q.
Proof.
  intros Ha Hab Hb. split.
  - apply Qle_shift_div_l; [exact Hb|]. rewrite Qmult_0_l. exact Ha.
  - apply Qle_shift_div_r; [exact Hb|]. rewrite Qmult_1_l. exact Hab.
Qed.

Lemma count_ratio_unit (a b : nat) :
  (a <= b)%nat ->
  (0 <= (if (0 <? b)%nat then Qnat a / Qnat b else 0) <= 1)%Q.
Proof.
  intro H. destruct (Nat.ltb_spec 0 b) as [Hb|_].
  - apply Qdiv_unit_interval;
      [apply Qnat_nonneg | apply Qnat_le; exact H | apply Qnat_pos; exact Hb].
  - split; discriminate.
Qed.

(** The harmonic mean of two numbers of the unit interval lies in it. *)
Lemma f1_unit (p r : Q) :
  (0 <= p <= 1)%Q -> (0 <= r <= 1)%Q ->
  (0 <= (if Qltb 0 (p + r) then 2 * (p * r) / (p + r) else 0) <= 1)%Q.
Proof.
  intros [Hp0 Hp1] [Hr0 Hr1].
  destruct (Qltb 0 (p + r)) eqn:E; [|split; discriminate].
  apply Qltb_lt in E.
  assert (Hpr : (0 <= p * r)%Q) by (apply Qmult_le_0_compat; assumption).
  assert (H1 : (p * r <= p)%Q).
  { rewrite <- (Qmult_1_r p) at 2. rewrite !(Qmult_comm p).
    apply Qmult_le_compat_r; assumption. }
  assert (H2 : (p * r <= r)%Q).
  { rewrite <- (Qmult_1_l r) at 2. apply Qmult_le_compat_r; assumption. }
  apply Qdiv_unit_interval; [lra | lra | exact E].
Qed.

Lemma Qsum_bounds (t : Q) (l : list Q) :
  Forall (fun d => (0 <= d < t)%Q) l ->
  (0 <= Qsum l <= Qnat (length l) * t)%Q.
Proof.
  induction 1 as [|d l [Hd0 Hdt] _ IH]; simpl Qsum; simpl length.
  - split; [apply Qle_refl|]. rewrite Qmult_0_l. apply Qle_refl.
  - rewrite Qnat_S. lra.
Qed.

Lemma np_mean_bounds (t : Q) (l : list Q) :
  l <> [] -> Forall (fun d => (0 <= d < t)%Q) l ->
  (0 <= np_mean l < t)%Q.
Proof.
  intros Hne H.
  assert (Hn : (0 < Qnat (length l))%Q).
  { apply Qnat_pos. destruct l; [congruence | simpl; lia]. }
  unfold np_mean. split.
  - apply Qle_shift_div_l; [exact Hn|]. rewrite Qmult_0_l.
    apply (Qsum_bounds t l H).
  - apply Qlt_shift_div_r; [exact Hn|].
    destruct H as [|d l [Hd0 Hdt] Hl]; [congruence|].
    pose proof (Qsum_bounds t l Hl) as [_ Hs].
    simpl Qsum. simpl length. rewrite Qnat_S. lra.
Qed.

Section ScoreBounds.

Import Scorer.

Variable np_sqrt : Z -> Q.

Lemma metrics_bounds (t : Z) (st : MatchState) :
  0 < t ->
  Forall (fun m => (0 <= distance m < inject_Z t)%Q) (matched st) ->
  exists r,
    metrics t st = Ok r /\
    (0 <= precision r <= 1)%Q /\ (0 <= recall r <= 1)%Q /\
    (0 <= f1 r <= 1)%Q /\ (0 <= color_accuracy r <= 1)%Q /\
    (0 <= avg_position_error r <= inject_Z t)%Q /\
    (-10 <= combined_score r <= 90)%Q.
Proof.
  intros Ht Hm.
  assert (Ht0 : (0 < inject_Z t)%Q)
    by (unfold Qlt, inject_Z; cbn [Qnum Qden]; lia).
  pose proof (count_ratio_unit (length (matched st))
                (length (matched st) + length (unmatched_detections st))
                ltac:(lia)) as Hp.
  pose proof (count_ratio_unit (length (matched st))
                (length (matched st) + length (unmatched_annotations st))
                ltac:(lia)) as Hr.
  pose proof (f1_unit _ _ Hp Hr) as Hf.
  pose proof (count_ratio_unit (length (filter color_match (matched st)))
                (length (matched st)) (filter_length_le _ _)) as Hc.
  unfold metrics, div_threshold.
  set (p := if (0 <? _ + length (unmatched_detections st))%nat then _ else _) in *.
  set (rc := if (0 <? _ + length (unmatched_annotations st))%nat then _ else _) in *.
  set (f := if Qltb 0 (p + rc) then _ else _) in *.
  set (ca := if (0 <? length (matched st))%nat then _ else _) in *.
  destruct (matched st) as [|m ms] eqn:Em.
  - destruct (Z.eqb_spec t 0) as [E|_]; [lia|]. simpl.
    eexists. split; [reflexivity|]. simpl.
    assert (E1 : (inject_Z t / inject_Z t == 1)%Q).
    { field. intro E. rewrite E in Ht0. exact (Qlt_irrefl _ Ht0). }
    rewrite E1. repeat split; try tauto; try lra.
  - cbn [bind].
    assert (Hmean : (0 <= np_mean (map distance (m :: ms)) < inject_Z t)%Q).
    { apply np_mean_bounds; [discriminate|].
      apply Forall_map. exact Hm. }
    set (avg := np_mean (map distance (m :: ms))) in *.
    assert (Hq : (0 <= avg / inject_Z t <= 1)%Q).
    { apply Qdiv_unit_interval; [tauto | apply Qlt_le_weak; tauto | exact Ht0]. }
    eexists. split; [reflexivity|].
    cbn [precision recall f1 color_accuracy avg_position_error combined_score].
    repeat split; try tauto; try lra.
Qed.


Lemma metrics_f1_formula (t : Z) (st : MatchState) (r : ScoreRecord) :
  metrics t st = Ok r ->
  ((0 < true_positives r)%nat ->
   (f1 r ==
    2 * Qnat (true_positives r)
    / (2 * Qnat (true_positives r) + Qnat (false_positives r)
       + Qnat (false_negatives r)))%Q) /\
  (true_positives r = 0%nat ->
   (precision r == 0)%Q /\ (recall r == 0)%Q /\ (f1 r == 0)%Q /\
   (color_accuracy r == 0)%Q).
Proof.
  unfold metrics. cbv zeta.
  set (tp := length (matched st)).
  set (fp := length (unmatched_detections st)).
  set (fn := length (unmatched_annotations st)).
  destruct (div_threshold (matched st) _ t) as [q|e]; [|discriminate].
  simpl. intro H. injection H as <-. simpl. split.
  - intro Htp.
    pose proof (Qnat_pos tp Htp) as Hp.
    pose proof (Qnat_nonneg fp) as Hfp. pose proof (Qnat_nonneg fn) as Hfn.
    destruct (Nat.ltb_spec 0 (tp + fp)) as [_|]; [|lia].
    destruct (Nat.ltb_spec 0 (tp + fn)) as [_|]; [|lia].
    assert (N1 : ~ (Qnat tp + Qnat fp == 0)%Q) by lra.
    assert (N2 : ~ (Qnat tp + Qnat fn == 0)%Q) by lra.
    assert (N3 : ~ (2 * Qnat tp + Qnat fp + Qnat fn == 0)%Q) by lra.
    assert (N4 : ~ (Qnat tp == 0)%Q) by lra.
    assert (Hsum : (0 < Qnat tp / Qnat (tp + fp) + Qnat tp / Qnat (tp + fn))%Q).
    { rewrite !Qnat_plus.
      apply (Qplus_lt_le_compat 0 _ 0).
      - apply Qlt_shift_div_l; lra.
      - apply Qle_shift_div_l; lra. }
    apply Qltb_lt in Hsum. rewrite Hsum.
    assert (P1 : (0 < Qnat tp * (Qnat tp + Qnat fn))%Q)
      by (apply Qmult_lt_0_compat; lra).
    assert (P2 : (0 < Qnat tp * (Qnat tp + Qnat fp))%Q)
      by (apply Qmult_lt_0_compat; lra).
    rewrite !Qnat_plus. field. repeat split; lra.
  - intro Htp. unfold tp in *. rewrite Htp. simpl.
    assert (E1 : ((if (0 <? fp)%nat then Qnat 0 / Qnat fp else 0) == 0)%Q).
    { destruct (0 <? fp)%nat; [apply Qnat_0_div | reflexivity]. }
    assert (E2 : ((if (0 <? fn)%nat then Qnat 0 / Qnat fn else 0) == 0)%Q).
    { destruct (0 <? fn)%nat; [apply Qnat_0_div | reflexivity]. }
    assert (E3 : Qltb 0 ((if (0 <? fp)%nat then Qnat 0 / Qnat fp else 0)
                         + (if (0 <? fn)%nat then Qnat 0 / Qnat fn else 0))
                 = false).
    { apply Qltb_ge. rewrite E1, E2. discriminate. }
    rewrite E3. repeat split; try assumption; reflexivity.
Qed.


End ScoreBounds.

(** ** The trackers of the search and the choice of the start *)

Section TrackingFacts.

Import Optimizer.

Variable evaluate_params : DetectorParams -> Evaluation.

Local Abbreviation objective_function :=
  (Optimizer.objective_function evaluate_params).
Local Abbreviation run_search := (Optimizer.run_search evaluate_params).
Local Abbreviation select_start := (Optimizer.select_start evaluate_params).
Local Abbreviation score_of := (Optimizer.score_of evaluate_params).
Local Abbreviation detection_score_of :=
  (Tracking.detection_score_of evaluate_params).
Local Abbreviation color_score_of := (Tracking.color_score_of evaluate_params).
Local Abbreviation train_score := (Tracking.train_score evaluate_params).

Lemma objective_function_detection (tr : Tracker) (x : ParamValues) :
  let tr' := fst (objective_function tr x) in
  (gt_score (detection_score_of x) (best_detection_score tr) = true ->
   best_detection_params tr' = Some (params_of_values x) /\
   best_detection_score tr' = Fin (detection_score_of x)) /\
  (gt_score (detection_score_of x) (best_detection_score tr) = false ->
   best_detection_params tr' = best_detection_params tr /\
   best_detection_score tr' = best_detection_score tr).
Proof.
  unfold Optimizer.objective_function, Tracking.detection_score_of. cbv zeta.
  destruct (gt_score _ (best_score tr));
    destruct (gt_score _ (best_detection_score tr));
    destruct (gt_score _ (best_color_score tr)); simpl;
    split; intro H; try discriminate; split; reflexivity.
Qed.

Lemma objective_function_color (tr : Tracker) (x : ParamValues) :
  let tr' := fst (objective_function tr x) in
  (gt_score (color_score_of x) (best_color_score tr) = true ->
   best_color_params tr' = Some (params_of_values x) /\
   best_color_score tr' = Fin (color_score_of x)) /\
  (gt_score (color_score_of x) (best_color_score tr) = false ->
   best_color_params tr' = best_color_params tr /\
   best_color_score tr' = best_color_score tr).
Proof.
  unfold Optimizer.objective_function, Tracking.color_score_of. cbv zeta.
  destruct (gt_score _ (best_score tr));
    destruct (gt_score _ (best_detection_score tr));
    destruct (gt_score _ (best_color_score tr)); simpl;
    split; intro H; try discriminate; split; reflexivity.
Qed.

(** A slot of the tracker holds the first best point for the score it
    follows. *)
Lemma slot_tracks (score : ParamValues -> Q)
  (slot_params : Tracker -> option DetectorParams)
  (slot_score : Tracker -> Optimizer.score) :
  slot_params init_tracker = None -> slot_score init_tracker = NegInf ->
  (forall tr x,
      let tr' := fst (objective_function tr x) in
      (gt_score (score x) (slot_score tr) = true ->
       slot_params tr' = Some (params_of_values x) /\
       slot_score tr' = Fin (score x)) /\
      (gt_score (score x) (slot_score tr) = false ->
       slot_params tr' = slot_params tr /\ slot_score tr' = slot_score tr)) ->
  forall pts,
    let tr := run_search pts init_tracker in
    (pts = [] /\ slot_params tr = None /\ slot_score tr = NegInf) \/
    (exists x,
        In x pts /\
        slot_params tr = Some (params_of_values x) /\
        slot_score tr = Fin (score x) /\
        forall y, In y pts -> (score y <= score x)%Q).
Proof.
  intros Hp0 Hs0 Hstep pts.
  induction pts as [|x pts IH] using rev_ind.
  - left. repeat split; assumption.
  - right. rewrite run_search_snoc.
    destruct (Hstep (run_search pts init_tracker) x) as [Hup Hkeep].
    cbv zeta in IH, Hup, Hkeep.
    destruct (gt_score (score x) (slot_score (run_search pts init_tracker)))
      eqn:E.
    + destruct (Hup eq_refl) as [Hp Hs]. exists x. repeat split.
      * apply in_or_app. right. left. reflexivity.
      * exact Hp.
      * exact Hs.
      * intros y Hy. apply in_app_or in Hy. destruct Hy as [Hy|[<-|[]]].
        -- destruct IH as [(-> & _)|(b & _ & _ & Hb & Hmax)]; [contradiction|].
           rewrite Hb in E. simpl in E. apply Qltb_lt in E.
           apply Qlt_le_weak. eapply Qle_lt_trans; [apply (Hmax y Hy)|exact E].
        -- apply Qle_refl.
    + destruct (Hkeep eq_refl) as [Hp Hs].
      destruct IH as [(_ & _ & Hb)|(b & Hin & Hbp & Hb & Hmax)].
      * rewrite Hb in E. discriminate.
      * exists b. repeat split.
        -- apply in_or_app. left. exact Hin.
        -- rewrite Hp. exact Hbp.
        -- rewrite Hs. exact Hb.
        -- intros y Hy. apply in_app_or in Hy. destruct Hy as [Hy|[<-|[]]].
           ++ exact (Hmax y Hy).
           ++ rewrite Hb in E. simpl in E. apply Qltb_ge in E. exact E.
Qed.

(** X8. After one or more evaluations the tracker holds, for the
    detection score (70 F1 + 15 precision + 15 recall, averaged over
    the images) and for the colour score (100 times the mean colour
    accuracy), the parameters of an evaluated point that no evaluated
    point outscores, with that score: the two halves of the hybrid
    candidate are then both present. *)
Theorem X8_detection_and_color_trackers (x0 : ParamValues)
  (pts : list ParamValues) :
  let tr := run_search (x0 :: pts) init_tracker in
  (exists xd,
      In xd (x0 :: pts) /\
      best_detection_params tr = Some (params_of_values xd) /\
      best_detection_score tr = Fin (detection_score_of xd) /\
      forall y, In y (x0 :: pts) ->
                (detection_score_of y <= detection_score_of xd)%Q) /\
  (exists xc,
      In xc (x0 :: pts) /\
      best_color_params tr = Some (params_of_values xc) /\
      best_color_score tr = Fin (color_score_of xc) /\
      forall y, In y (x0 :: pts) -> (color_score_of y <= color_score_of xc)%Q).
Proof.
  cbv zeta. split.
  - destruct (slot_tracks detection_score_of best_detection_params
                best_detection_score eq_refl eq_refl
                objective_function_detection (x0 :: pts))
      as [(E & _)|H]; [discriminate | exact H].
  - destruct (slot_tracks color_score_of best_color_params
                best_color_score eq_refl eq_refl
                objective_function_color (x0 :: pts))
      as [(E & _)|H]; [discriminate | exact H].
Qed.

Lemma objective_function_monotone (tr : Tracker) (x : ParamValues) :
  let tr' := fst (objective_function tr x) in
  score_ge (best_score tr') (best_score tr) /\
  score_ge (best_detection_score tr') (best_detection_score tr) /\
  score_ge (best_color_score tr') (best_color_score tr).
Proof.
  unfold Optimizer.objective_function. cbv zeta.
  destruct (gt_score _ (best_score tr)) eqn:E1;
    destruct (gt_score _ (best_detection_score tr)) eqn:E2;
    destruct (gt_score _ (best_color_score tr)) eqn:E3; simpl;
    repeat split;
    first [ apply score_ge_refl | apply gt_score_ge; assumption ].
Qed.

(** X9. The three tracked scores never go down: whatever the tracker
    holds, evaluating more points leaves each of them at least where
    it was, and a slot that holds parameters keeps holding some. *)
Theorem X9_trackers_never_decrease (pts : list ParamValues) (tr : Tracker) :
  score_ge (best_score (run_search pts tr)) (best_score tr) /\
  score_ge (best_detection_score (run_search pts tr))
           (best_detection_score tr) /\
  score_ge (best_color_score (run_search pts tr)) (best_color_score tr) /\
  (best_params tr <> None -> best_params (run_search pts tr) <> None).
Proof.
  revert tr. induction pts as [|x pts IH]; intro tr.
  - simpl. repeat split; try apply score_ge_refl. tauto.
  - change (run_search (x :: pts) tr)
      with (run_search pts (fst (objective_function tr x))).
    destruct (IH (fst (objective_function tr x))) as (H1 & H2 & H3 & H4).
    destruct (objective_function_monotone tr x) as (M1 & M2 & M3).
    cbv zeta in M1, M2, M3.
    repeat split; try (eapply score_ge_trans; eassumption).
    intro Hne. apply H4.
    destruct (objective_function_best evaluate_params tr x) as [Hup Hkeep].
    cbv zeta in Hup, Hkeep.
    destruct (gt_score (score_of x) (best_score tr)) eqn:E.
    + destruct (Hup eq_refl) as [-> _]. discriminate.
    + destruct (Hkeep eq_refl) as [-> _]. exact Hne.
Qed.

(** X10. When the search completes, [optimize] starts the refinement
    from parameters that are never [None]: one of the three
    candidates, under its own label, with the training score it was
    just evaluated to, and that score is at least the score of the
    optimizer's point, of the tracked best and of the hybrid, whenever
    these exist. *)
Theorem X10_start_is_best_candidate (x : ParamValues) (tr : Tracker) :
  exists p src,
    select_start (Completed x) tr = Ok (Some p, Fin (train_score p), src) /\
    (train_score (params_of_values x) <= train_score p)%Q /\
    (forall b, best_params tr = Some b -> (train_score b <= train_score p)%Q) /\
    (forall d c,
        best_detection_params tr = Some d -> best_color_params tr = Some c ->
        (train_score (hybrid d c) <= train_score p)%Q) /\
    ((p = params_of_values x /\ src = "Optimizer Best"%string) \/
     (best_params tr = Some p /\ src = "Tracked Best"%string) \/
     (exists d c,
         best_detection_params tr = Some d /\ best_color_params tr = Some c /\
         p = hybrid d c /\ src = "Hybrid (Best Det + Best Color)"%string)).
Proof.
  unfold Optimizer.select_start, Tracking.train_score, better.
  destruct (best_detection_params tr) as [d|];
    destruct (best_color_params tr) as [c|];
    destruct (best_params tr) as [b|]; simpl;
    repeat match goal with
      | |- context [Qltb ?a ?b] =>
          let E := fresh "E" in
          destruct (Qltb a b) eqn:E; simpl;
          [apply Qltb_lt in E | apply Qltb_ge in E]
      end;
    eexists; eexists; (split; [reflexivity|]);
    repeat split;
    try (intros; repeat match goal with
                   | H : Some _ = Some _ |- _ => injection H as <-
                   | H : None = Some _ |- _ => discriminate H
                   end; lra);
    try (left; split; reflexivity);
    try (right; left; split; reflexivity);
    try (right; right; exists d, c; repeat split; reflexivity).
Qed.

End TrackingFacts.

(** ** The refinement loop: label and invariants *)

Lemma substring_skip (s t : string) (k n : nat) :
  substring (String.length s + k) n (s ++ t) = substring k n t.
Proof.
  induction s as [|c s IH]; simpl; [reflexivity | exact IH].
Qed.

Lemma marker_found (s : string) :
  index 0 Tracking.local_marker (s ++ " + Local Search") <> None.
Proof.
  intro H.
  apply (index_correct3 0 (String.length s + 1)) in H.
  - apply H. rewrite substring_skip. reflexivity.
  - discriminate.
  - lia.
Qed.

Lemma mark_local_idempotent (s : string) :
  Optimizer.mark_local (Optimizer.mark_local s) = Optimizer.mark_local s.
Proof.
  unfold Optimizer.mark_local.
  destruct (index 0 "+ Local Search" s) eqn:E.
  - rewrite E. reflexivity.
  - destruct (index 0 "+ Local Search" (s ++ " + Local Search")) eqn:E2;
      [reflexivity|].
    exfalso. exact (marker_found s E2).
Qed.

Section LoopFacts.

Import Optimizer.

Variable evaluate_params : DetectorParams -> Evaluation.
Variable rng : Type.
Variable neighbor_params : DetectorParams -> rng -> DetectorParams * rng.

Local Abbreviation local_step :=
  (Optimizer.local_step evaluate_params rng neighbor_params).
Local Abbreviation local_loop :=
  (Optimizer.local_loop evaluate_params rng neighbor_params).
Local Abbreviation refine :=
  (Optimizer.refine evaluate_params rng neighbor_params).
Local Abbreviation train_score := (Tracking.train_score evaluate_params).

(** One iteration either leaves the best point, its score and the
    label alone, or promotes the neighbour and marks the label. *)
Lemma local_step_promotes (st : LocalState rng) :
  (best_params_raw (local_step st) = best_params_raw st /\
   ls_best_score (local_step st) = ls_best_score st /\
   best_source (local_step st) = best_source st) \/
  (exists p,
      best_params_raw (local_step st) = p /\
      ls_best_score (local_step st) = Fin (train_score p) /\
      gt_score (train_score p) (ls_best_score st) = true /\
      best_source (local_step st) = mark_local (best_source st)).
Proof.
  unfold Optimizer.local_step, Tracking.train_score.
  destruct (neighbor_params (current_params st) (rand st)) as [nb g].
  destruct (gt_score _ (current_score st)).
  - destruct (gt_score _ (ls_best_score st)) eqn:E; simpl.
    + right. exists nb. repeat split. exact E.
    + left. repeat split.
  - destruct (10 <? S (no_improvement_count st))%nat.
    + destruct (neighbor_params (best_params_raw st) g). simpl.
      left. repeat split.
    + simpl. left. repeat split.
Qed.

(** X11. The label of the source is marked once: however many times
    the refinement promotes a new best point, the label it returns is
    the one it started with, when no point was promoted (the best
    point and its score are then unchanged too), or that label with
    the marker appended a single time; marking a marked label changes
    nothing. *)
Theorem X11_label_marked_once (n : nat) (st : LocalState rng) :
  ((best_params_raw (local_loop n st) = best_params_raw st /\
    ls_best_score (local_loop n st) = ls_best_score st /\
    best_source (local_loop n st) = best_source st) \/
   best_source (local_loop n st) = mark_local (best_source st)) /\
  mark_local (mark_local (best_source st)) = mark_local (best_source st) /\
  (index 0 Tracking.local_marker (best_source st) = None ->
   mark_local (best_source st)
   = (best_source st ++ " + Local Search")%string) /\
  (index 0 Tracking.local_marker (best_source st) <> None ->
   mark_local (best_source st) = best_source st).
Proof.
  split; [|split; [apply mark_local_idempotent|]].
  - induction n as [|n IH]; [left; repeat split|].
    change (local_loop (S n) st) with (local_step (local_loop n st)).
    destruct (local_step_promotes (local_loop n st))
      as [(Hp & Hs & Hl)|(p & _ & _ & _ & Hl)].
    + rewrite Hp, Hs, Hl. exact IH.
    + right. rewrite Hl.
      destruct IH as [(_ & _ & E1)|E1]; rewrite E1;
        [reflexivity | apply mark_local_idempotent].
  - unfold mark_local, Tracking.local_marker.
    destruct (index 0 "+ Local Search" (best_source st));
      split; intro H; congruence.
Qed.

Lemma local_step_invariants (st : LocalState rng) :
  ((no_improvement_count st <= 10)%nat ->
   (no_improvement_count (local_step st) <= 10)%nat) /\
  (score_ge (ls_best_score st) (current_score st) ->
   score_ge (ls_best_score (local_step st)) (current_score (local_step st))) /\
  (ls_best_score st = Fin (train_score (best_params_raw st)) ->
   ls_best_score (local_step st)
   = Fin (train_score (best_params_raw (local_step st)))) /\
  (improvements st <= improvements (local_step st) <= S (improvements st))%nat.
Proof.
  unfold Optimizer.local_step, Tracking.train_score.
  destruct (neighbor_params (current_params st) (rand st)) as [nb g].
  destruct (gt_score _ (current_score st)) eqn:Ec.
  - destruct (gt_score _ (ls_best_score st)) eqn:Eb; simpl.
    + repeat split; try lia. intros _. apply Qle_refl.
    + repeat split; try lia; try tauto. intros _.
      destruct (ls_best_score st) as [|b]; [discriminate|].
      simpl in Eb |- *. apply Qltb_ge in Eb. exact Eb.
  - destruct (Nat.ltb_spec 10 (S (no_improvement_count st))).
    + destruct (neighbor_params (best_params_raw st) g). simpl.
      repeat split; try lia; try tauto. intros _. apply score_ge_refl.
    + simpl. repeat split; try lia; tauto.
Qed.

(** X12. Along the refinement the counter of iterations without
    improvement stays at 10 or below, the best score stays at or above
    the current score, the best score stays the training score of the
    best parameters, and at most one improvement is counted per
    iteration; so [refine], started from a seed with its training
    score, returns parameters together with their training score. *)
Theorem X12_loop_invariants :
  (forall (n : nat) (st : LocalState rng),
      ((no_improvement_count st <= 10)%nat ->
       (no_improvement_count (local_loop n st) <= 10)%nat) /\
      (score_ge (ls_best_score st) (current_score st) ->
       score_ge (ls_best_score (local_loop n st))
                (current_score (local_loop n st))) /\
      (ls_best_score st = Fin (train_score (best_params_raw st)) ->
       ls_best_score (local_loop n st)
       = Fin (train_score (best_params_raw (local_loop n st)))) /\
      (improvements (local_loop n st) <= improvements st + n)%nat) /\
  (forall (local_iterations : Z) (seed : DetectorParams) (src : string)
          (g : rng),
      exists p src',
        refine local_iterations (Some seed, Fin (train_score seed), src) g
        = (Some p, Fin (train_score p), src')).
Proof.
  assert (Hloop : forall (n : nat) (st : LocalState rng),
      ((no_improvement_count st <= 10)%nat ->
       (no_improvement_count (local_loop n st) <= 10)%nat) /\
      (score_ge (ls_best_score st) (current_score st) ->
       score_ge (ls_best_score (local_loop n st))
                (current_score (local_loop n st))) /\
      (ls_best_score st = Fin (train_score (best_params_raw st)) ->
       ls_best_score (local_loop n st)
       = Fin (train_score (best_params_raw (local_loop n st)))) /\
      (improvements (local_loop n st) <= improvements st + n)%nat).
  { intros n st. induction n as [|n (I1 & I2 & I3 & I4)].
    - simpl. repeat split; try tauto. lia.
    - change (local_loop (S n) st) with (local_step (local_loop n st)).
      destruct (local_step_invariants (local_loop n st)) as (S1 & S2 & S3 & S4).
      repeat split; try tauto. lia. }
  split; [exact Hloop|].
  intros n seed src g. unfold Optimizer.refine.
  destruct (0 <? n).
  - destruct (Hloop (Z.to_nat n) (local_init rng seed (Fin (train_score seed)) src g))
      as (_ & _ & H & _).
    eexists. eexists. rewrite H by reflexivity. reflexivity.
  - exists seed, src. reflexivity.
Qed.

End LoopFacts.

(** ** [neighbor_params] and the search space *)

Section NeighborFacts.

Import Neighbor.

Lemma get_set_int (i j : IntName) (v : Z) (p : DetectorParams) :
  get_int i (set_int j v p) = if IntName_eq_dec j i then v else get_int i p.
Proof.
  destruct i, j; reflexivity.
Qed.

Lemma int_bounds_ordered (i : IntName) : int_low i <= int_high i.
Proof.
  destruct i; simpl; lia.
Qed.

Lemma np_clip_bounds (v lo hi : Z) : lo <= hi -> lo <= np_clip v lo hi <= hi.
Proof.
  unfold np_clip. lia.
Qed.

Lemma np_clip_near (v d lo hi : Z) :
  lo <= v <= hi -> Z.abs (np_clip (v + d) lo hi - v) <= Z.abs d.
Proof.
  unfold np_clip. lia.
Qed.

Lemma np_clipQ_bounds (v lo hi : Q) :
  (lo <= hi)%Q -> (lo <= np_clipQ v lo hi <= hi)%Q.
Proof.
  intro H. unfold np_clipQ.
  destruct (Qle_bool lo v) eqn:E1.
  - apply Qle_bool_iff in E1.
    destruct (Qle_bool v hi) eqn:E2.
    + apply Qle_bool_iff in E2. split; assumption.
    + split; [exact H | apply Qle_refl].
  - destruct (Qle_bool lo hi) eqn:E2.
    + split; [apply Qle_refl | exact H].
    + apply Qle_bool_iff in H. congruence.
Qed.

Lemma np_clipQ_near (v d lo hi : Q) :
  (lo <= v <= hi)%Q ->
  (- Qabs d <= np_clipQ (v + d) lo hi - v <= Qabs d)%Q.
Proof.
  intros [Hlo Hhi]. unfold np_clipQ.
  pose proof (Qle_Qabs d) as A1.
  pose proof (Qle_Qabs (- d)) as A2. rewrite Qabs_opp in A2.
  destruct (Qle_bool lo (v + d)) eqn:E1.
  - apply Qle_bool_iff in E1.
    destruct (Qle_bool (v + d) hi) eqn:E2.
    + split; lra.
    + assert (E3 : ~ (v + d <= hi)%Q)
        by (intro E; apply Qle_bool_iff in E; congruence).
      apply Qnot_le_lt in E3. split; lra.
  - assert (E3 : ~ (lo <= v + d)%Q)
      by (intro E; apply Qle_bool_iff in E; congruence).
    apply Qnot_le_lt in E3.
    pose proof (Qabs_nonneg d) as A3.
    destruct (Qle_bool lo hi) eqn:E2; [split; lra|].
    assert (E4 : (lo <= hi)%Q) by lra.
    apply Qle_bool_iff in E4. congruence.
Qed.

Lemma mutate_fixed (p : DetectorParams) (n : ParamName) (sign steps : Z) :
  algorithm (mutate p n sign steps) = algorithm p /\
  blueH2Low (mutate p n sign steps) = blueH2Low p /\
  blueH2High (mutate p n sign steps) = blueH2High p.
Proof.
  destruct n; repeat split.
Qed.

Lemma mutate_int (p : DetectorParams) (n : ParamName) (sign steps : Z)
  (i : IntName) :
  get_int i (mutate p n sign steps)
  = match n with
    | N_dp => get_int i p
    | N_int j =>
        if IntName_eq_dec j i
        then np_clip (get_int i p + sign * int_step i * steps)
               (int_low i) (int_high i)
        else get_int i p
    end.
Proof.
  destruct n as [|j]; [destruct i; reflexivity|].
  unfold mutate. cbv zeta. rewrite get_set_int.
  destruct (IntName_eq_dec j i) as [->|]; reflexivity.
Qed.

Lemma mutate_dp (p : DetectorParams) (n : ParamName) (sign steps : Z) :
  dp (mutate p n sign steps)
  = match n with
    | N_dp =>
        np_clipQ (dp p + inject_Z sign * dp_step * inject_Z steps)
          dp_low dp_high
    | N_int _ => dp p
    end.
Proof.
  destruct n; reflexivity.
Qed.

(** A field after one mutation is the field before, or lies in its
    bounds. *)
Lemma mutate_clipped (p : DetectorParams) (n : ParamName) (sign steps : Z) :
  (dp (mutate p n sign steps) = dp p \/
   (dp_low <= dp (mutate p n sign steps) <= dp_high)%Q) /\
  forall i,
    get_int i (mutate p n sign steps) = get_int i p \/
    int_low i <= get_int i (mutate p n sign steps) <= int_high i.
Proof.
  split.
  - rewrite mutate_dp. destruct n; [right|left; reflexivity].
    apply np_clipQ_bounds. discriminate.
  - intro i. rewrite mutate_int. destruct n as [|j]; [left; reflexivity|].
    destruct (IntName_eq_dec j i); [right|left; reflexivity].
    apply np_clip_bounds, int_bounds_ordered.
Qed.

Lemma mutate_in_space (p : DetectorParams) (n : ParamName) (sign steps : Z) :
  in_space p -> in_space (mutate p n sign steps).
Proof.
  intros [Hd Hi]. destruct (mutate_clipped p n sign steps) as [Cd Ci].
  split.
  - destruct Cd as [->|C]; assumption.
  - intro i. destruct (Ci i) as [->|C]; [apply Hi | exact C].
Qed.

Section WithRandom.

Variable rng : Type.
Variable randint : Z -> Z -> rng -> Z * rng.
Variable choice_name : rng -> ParamName * rng.
Variable choice_sign : rng -> Z * rng.

Local Abbreviation mutate_once :=
  (Neighbor.mutate_once rng randint choice_name choice_sign).
Local Abbreviation neighbor_params :=
  (Neighbor.neighbor_params rng randint choice_name choice_sign).
Local Abbreviation fair_draws :=
  (Neighbor.fair_draws rng randint choice_sign).

(** What one pass of the loop is, in terms of [mutate]. *)
Lemma mutate_once_is (s : DetectorParams * rng) :
  exists n sign steps,
    fst (mutate_once s) = mutate (fst s) n sign steps /\
    sign = fst (choice_sign (snd (choice_name (snd s)))) /\
    steps = fst (randint 1 3 (snd (choice_sign (snd (choice_name (snd s)))))).
Proof.
  destruct s as [p g]. unfold Neighbor.mutate_once. simpl.
  destruct (choice_name g) as [n g1]. simpl.
  destruct (choice_sign g1) as [sign g2]. simpl.
  destruct (randint 1 3 g2) as [steps g3]. simpl.
  exists n, sign, steps. repeat split.
Qed.

Lemma iter_mutations (P : DetectorParams -> Prop) (k : nat)
  (s : DetectorParams * rng) :
  (forall p n sign steps, P p -> P (mutate p n sign steps)) ->
  P (fst s) -> P (fst (Nat.iter k mutate_once s)).
Proof.
  intros Hstep H0. induction k as [|k IH]; [exact H0|].
  simpl. destruct (mutate_once_is (Nat.iter k mutate_once s))
    as (n & sign & steps & -> & _).
  apply Hstep. exact IH.
Qed.

Lemma neighbor_in_space (base : DetectorParams) (g : rng) :
  in_space base -> in_space (fst (neighbor_params base g)).
Proof.
  unfold Neighbor.neighbor_params.
  destruct (randint 1 4 g) as [num g1].
  intro H. apply iter_mutations; [apply mutate_in_space | exact H].
Qed.

(** X13. Whatever numbers the random generator draws, a neighbour of
    parameters that lie in the search space lies in the search space;
    for any base parameters, every field of the neighbour is the
    field of the base or lies within the bounds of that field, and
    the algorithm and the second blue hue range are those of the
    base. *)
Theorem X13_neighbor_stays_in_space (base : DetectorParams) (g : rng) :
  let p := fst (neighbor_params base g) in
  (in_space base -> in_space p) /\
  (dp p = dp base \/ (dp_low <= dp p <= dp_high)%Q) /\
  (forall i, get_int i p = get_int i base \/
             int_low i <= get_int i p <= int_high i) /\
  algorithm p = algorithm base /\
  blueH2Low p = blueH2Low base /\ blueH2High p = blueH2High base.
Proof.
  cbv zeta. unfold Neighbor.neighbor_params.
  destruct (randint 1 4 g) as [num g1].
  split; [|split; [|split; [|split; [|split]]]].
  - intro H. apply iter_mutations; [apply mutate_in_space | exact H].
  - apply (iter_mutations
             (fun p => dp p = dp base \/ (dp_low <= dp p <= dp_high)%Q)).
    + intros p n sign steps Hp.
      destruct (mutate_clipped p n sign steps) as [[E|C] _];
        [rewrite E; exact Hp | right; exact C].
    + left. reflexivity.
  - intro i.
    apply (iter_mutations
             (fun p => get_int i p = get_int i base \/
                       int_low i <= get_int i p <= int_high i)).
    + intros p n sign steps Hp.
      destruct (mutate_clipped p n sign steps) as [_ Ci].
      destruct (Ci i) as [E|C]; [rewrite E; exact Hp | right; exact C].
    + left. reflexivity.
  - apply (iter_mutations (fun p => algorithm p = algorithm base));
      [|reflexivity].
    intros p n sign steps <-. apply mutate_fixed.
  - apply (iter_mutations (fun p => blueH2Low p = blueH2Low base));
      [|reflexivity].
    intros p n sign steps <-. apply mutate_fixed.
  - apply (iter_mutations (fun p => blueH2High p = blueH2High base));
      [|reflexivity].
    intros p n sign steps <-. apply mutate_fixed.
Qed.

Lemma int_step_pos (i : IntName) : 0 < int_step i.
Proof.
  destruct i; simpl; lia.
Qed.

(** One mutation with a fair sign and a fair number of steps moves a
    field by two steps at most. *)
Lemma mutate_near (p : DetectorParams) (n : ParamName) (sign steps : Z) :
  in_space p -> (sign = -1 \/ sign = 1) -> 1 <= steps < 3 ->
  (- (2 # 10) <= dp (mutate p n sign steps) - dp p <= 2 # 10)%Q /\
  forall i,
    Z.abs (get_int i (mutate p n sign steps) - get_int i p) <= 2 * int_step i.
Proof.
  intros [Hd Hi] Hs Hk. split.
  - rewrite mutate_dp. destruct n; [|lra].
    pose proof (np_clipQ_near (dp p)
                  (inject_Z sign * dp_step * inject_Z steps)
                  dp_low dp_high Hd) as H.
    assert (Ha : (Qabs (inject_Z sign * dp_step * inject_Z steps) <= 2 # 10)%Q).
    { assert (steps = 1 \/ steps = 2) as [-> | ->] by lia;
        destruct Hs as [-> | ->]; vm_compute; discriminate. }
    lra.
  - intro i. rewrite mutate_int. destruct n as [|j].
    + pose proof (int_step_pos i). lia.
    + pose proof (int_step_pos i).
      destruct (IntName_eq_dec j i); [|lia].
      pose proof (np_clip_near (get_int i p) (sign * int_step i * steps)
                    (int_low i) (int_high i) (Hi i)).
      nia.
Qed.


End WithRandom.

End NeighborFacts.

(** ** The refinement inside the search space, and the model *)

Section RefineInSpace.

Import Optimizer.

Variable evaluate_params : DetectorParams -> Evaluation.
Variable rng : Type.
Variable randint : Z -> Z -> rng -> Z * rng.
Variable choice_name : rng -> Neighbor.ParamName * rng.
Variable choice_sign : rng -> Z * rng.

Local Abbreviation neighbor_params :=
  (Neighbor.neighbor_params rng randint choice_name choice_sign).
Local Abbreviation local_step :=
  (Optimizer.local_step evaluate_params rng neighbor_params).
Local Abbreviation local_loop :=
  (Optimizer.local_loop evaluate_params rng neighbor_params).
Local Abbreviation refine :=
  (Optimizer.refine evaluate_params rng neighbor_params).

Lemma local_step_in_space (st : LocalState rng) :
  Neighbor.in_space (current_params st) ->
  Neighbor.in_space (best_params_raw st) ->
  Neighbor.in_space (current_params (local_step st)) /\
  Neighbor.in_space (best_params_raw (local_step st)).
Proof.
  intros Hc Hb. unfold Optimizer.local_step.
  pose proof (neighbor_in_space rng randint choice_name choice_sign
                (current_params st) (rand st) Hc) as Hn.
  destruct (neighbor_params (current_params st) (rand st)) as [nb g].
  simpl in Hn.
  destruct (gt_score _ (current_score st)).
  - destruct (gt_score _ (ls_best_score st)); simpl; split; assumption.
  - destruct (10 <? S (no_improvement_count st))%nat.
    + pose proof (neighbor_in_space rng randint choice_name choice_sign
                    (best_params_raw st) g Hb) as Hj.
      destruct (neighbor_params (best_params_raw st) g) as [jump g'].
      simpl in Hj |- *. split; assumption.
    + simpl. split; assumption.
Qed.

(** X15. A refinement that starts from a seed in the search space
    never leaves it: after any number of iterations the current
    parameters and the best parameters lie in the search space, and
    so do the parameters [refine] returns, whatever the evaluation
    and whatever the random generator draws. *)
Theorem X15_refinement_stays_in_space (seed : DetectorParams)
  (Hseed : Neighbor.in_space seed) :
  (forall (n : nat) (seed_score : score) (src : string) (g : rng),
      let st := local_loop n (local_init rng seed seed_score src g) in
      Neighbor.in_space (current_params st) /\
      Neighbor.in_space (best_params_raw st)) /\
  (forall (local_iterations : Z) (seed_score : score) (src : string) (g : rng),
      exists p q src',
        refine local_iterations (Some seed, seed_score, src) g
        = (Some p, q, src') /\
        Neighbor.in_space p).
Proof.
  assert (Hloop : forall (n : nat) (seed_score : score) (src : string) (g : rng),
      let st := local_loop n (local_init rng seed seed_score src g) in
      Neighbor.in_space (current_params st) /\
      Neighbor.in_space (best_params_raw st)).
  { intros n seed_score src g. cbv zeta.
    induction n as [|n [IH1 IH2]].
    - simpl. split; exact Hseed.
    - change (local_loop (S n) (local_init rng seed seed_score src g))
        with (local_step (local_loop n (local_init rng seed seed_score src g))).
      apply local_step_in_space; assumption. }
  split; [exact Hloop|].
  intros n seed_score src g. unfold Optimizer.refine.
  destruct (0 <? n).
  - eexists. eexists. eexists. split; [reflexivity|].
    apply (Hloop (Z.to_nat n) seed_score src g).
  - exists seed, seed_score, src. split; [reflexivity | exact Hseed].
Qed.

End RefineInSpace.

Section ModelFacts.

Import Neighbor Models.

Lemma field_ok_spec (lo v hi : Z) : field_ok lo v hi = true <-> lo <= v <= hi.
Proof.
  unfold field_ok. rewrite andb_true_iff, !Z.leb_le. reflexivity.
Qed.

Lemma fields_ok_spec (p : DetectorParams) :
  fields_ok p = true <-> algorithm p = "hough"%string /\ in_space p.
Proof.
  unfold fields_ok, in_space, dp_low, dp_high.
  rewrite !andb_true_iff, !field_ok_spec, !Qle_bool_iff, String.eqb_eq.
  split.
  - intros H. decompose [and] H. clear H.
    split; [assumption|]. split; [split; assumption|].
    intro i. destruct i; simpl; lia.
  - intros (Ha & [Hd1 Hd2] & Hi).
    pose proof (Hi N_minDist). pose proof (Hi N_param1).
    pose proof (Hi N_param2). pose proof (Hi N_minRadius).
    pose proof (Hi N_maxRadius). pose proof (Hi N_redH1Low).
    pose proof (Hi N_redH1High). pose proof (Hi N_redH2Low).
    pose proof (Hi N_redH2High). pose proof (Hi N_redSMin).
    pose proof (Hi N_redVMin). pose proof (Hi N_blueH1Low).
    pose proof (Hi N_blueH1High). pose proof (Hi N_blueSMin).
    pose proof (Hi N_blueVMin). simpl in *.
    repeat split; try assumption; lia.
Qed.

(** X16. The field constraints of the model and the bounds of the
    search space are the same: the constructor of the model accepts
    parameters, and returns them as they are, exactly when their
    algorithm is "hough" and they lie in the search space, and raises
    [ValueError] otherwise; so it accepts the parameters
    [objective_function] builds from any point of the search space. *)
Theorem X16_model_accepts_the_search_space :
  (forall p : DetectorParams,
      (params_to_model p = Ok p <->
       algorithm p = "hough"%string /\ in_space p) /\
      (~ (algorithm p = "hough"%string /\ in_space p) ->
       params_to_model p = Raise ValueError)) /\
  (forall x : Optimizer.ParamValues,
      in_space (Optimizer.params_of_values x) ->
      params_to_model (Optimizer.params_of_values x)
      = Ok (Optimizer.params_of_values x)).
Proof.
  split.
  - intro p. rewrite <- fields_ok_spec. unfold params_to_model.
    destruct (fields_ok p).
    + split; [split; reflexivity | congruence].
    + split; [split; discriminate | reflexivity].
  - intros x Hx. unfold params_to_model.
    assert (E : fields_ok (Optimizer.params_of_values x) = true).
    { apply fields_ok_spec. split; [reflexivity | exact Hx]. }
    rewrite E. reflexivity.
Qed.

End ModelFacts.

(** ** [detect_poks] and [evaluate_params] *)

Lemma py_int_mono (q q' : Q) : (q <= q')%Q -> py_int q <= py_int q'.
Proof.
  destruct q as [n d], q' as [n' d']. unfold Qle, py_int. simpl. intro H.
  rewrite <- (Z.quot_mul_cancel_r n (Zpos d) (Zpos d')) by lia.
  rewrite <- (Z.quot_mul_cancel_r n' (Zpos d') (Zpos d)) by lia.
  rewrite (Z.mul_comm (Zpos d') (Zpos d)).
  apply Z.quot_le_mono; lia.
Qed.

Lemma classify_known (hsv : CircleClassifier.HsvImage) (x y radius : Z)
  (params : DetectorParams) :
  Detector.known_color
    (CircleClassifier.classify_circle hsv x y radius params).
Proof.
  unfold CircleClassifier.classify_circle, CircleClassifier.decide,
    Detector.known_color.
  destruct (_ =? 0)%nat; [tauto|]. cbv zeta.
  destruct (_ && _); [tauto|]. destruct (_ && _); tauto.
Qed.

Section DetectorFacts.

Variable Image : Type.
Variable HoughCircles : Image -> DetectorParams -> option (list (Q * Q * Q)).
Variable cvtColor_hsv : Image -> CircleClassifier.HsvImage.
Variable np_sqrt : Z -> Q.

Local Abbreviation detect_one := (Detector.detect_one).
Local Abbreviation detect_poks :=
  (Detector.detect_poks Image HoughCircles cvtColor_hsv).
Local Abbreviation evaluate_one :=
  (Detector.evaluate_one Image HoughCircles cvtColor_hsv np_sqrt).
Local Abbreviation evaluate_params :=
  (Detector.evaluate_params Image HoughCircles cvtColor_hsv np_sqrt).

Lemma detect_loop (hsv : CircleClassifier.HsvImage) (params : DetectorParams)
  (scale : Q) (circles : list (Q * Q * Q)) :
  (0 < scale)%Q ->
  forall acc,
    for_each (detect_one hsv params scale) circles acc
    = Ok (acc ++ map (detection_of hsv params scale) circles).
Proof.
  intro Hs. induction circles as [|[[cx cy] cr] circles IH]; intro acc; simpl.
  - rewrite app_nil_r. reflexivity.
  - rewrite !(int_div_pos _ _ Hs). simpl. rewrite IH, <- app_assoc.
    reflexivity.
Qed.


Lemma detect_poks_ok (image : Image) (params : DetectorParams) (scale : Q)
  (max_circles : Z) :
  (0 < scale)%Q -> exists dets, detect_poks image params scale max_circles = Ok dets.
Proof.
  intro Hs. unfold Detector.detect_poks.
  destruct (HoughCircles image params) as [circles|]; [|exists []; reflexivity].
  cbv zeta. rewrite (detect_loop _ _ _ _ Hs). eexists. reflexivity.
Qed.

Lemma combined_in_bounds (t : Z) (dets : list Scorer.Detection)
  (anns : list Scorer.Annotation) :
  (forall z, (0 <= np_sqrt z)%Q) -> 0 < t ->
  exists r,
    Scorer.calculate_score np_sqrt t dets anns = Ok r /\
    (-10 <= Scorer.combined_score r <= 90)%Q.
Proof.
  intros Hnn Ht.
  destruct (greedy_matching_spec np_sqrt t dets anns)
    as (st & pairs & fns & Hrun & Hg & Hm & _).
  unfold Scorer.calculate_score. rewrite Hrun. simpl bind.
  destruct (metrics_bounds np_sqrt t st Ht) as (r & Hr & _ & _ & _ & _ & _ & Hc).
  - rewrite Hm. apply Forall_map. apply Forall_forall. intros [a d] Hin.
    simpl. split; [apply Hnn|].
    apply (greedy_within np_sqrt _ _ _ _ _ _ Hg a d Hin).
  - exists r. split; assumption.
Qed.

Lemma evaluate_loop (t : Z) (params : DetectorParams)
  (Hnn : forall z, (0 <= np_sqrt z)%Q) (Ht : 0 < t)
  (dataset : list (Detector.ImageData Image)) :
  Forall (fun d => (0 < Detector.scale d)%Q) dataset ->
  forall acc,
    exists scores,
      for_each (evaluate_one t params) dataset acc
      = Ok (fold_left (fun a r => (a + Scorer.combined_score r)%Q)
              scores (fst acc),
            snd acc ++ scores) /\
      length scores = length dataset /\
      Forall (fun r => (-10 <= Scorer.combined_score r <= 90)%Q) scores.
Proof.
  induction 1 as [|d dataset Hd _ IH]; intro acc.
  - exists []. simpl. rewrite app_nil_r. destruct acc.
    repeat split. constructor.
  - simpl for_each. unfold Detector.evaluate_one at 1.
    destruct (detect_poks_ok (Detector.image d) params (Detector.scale d) 20 Hd)
      as (dets & ->).
    simpl bind.
    destruct (combined_in_bounds t dets (Detector.poks d) Hnn Ht)
      as (r & -> & Hr).
    simpl bind.
    destruct (IH ((fst acc + Scorer.combined_score r)%Q, snd acc ++ [r]))
      as (scores & -> & Hlen & Hall).
    exists (r :: scores). simpl. rewrite <- app_assoc. simpl.
    repeat split; [lia|]. constructor; assumption.
Qed.

Lemma fold_sum_bounds (scores : list Scorer.ScoreRecord) (a : Q) :
  Forall (fun r => (-10 <= Scorer.combined_score r <= 90)%Q) scores ->
  (a - 10 * Qnat (length scores)
   <= fold_left (fun a r => (a + Scorer.combined_score r)%Q) scores a
   <= a + 90 * Qnat (length scores))%Q.
Proof.
  intro H. revert a. induction H as [|r scores Hr _ IH]; intro a.
  - simpl. change (Qnat 0) with 0%Q. lra.
  - simpl fold_left. simpl length. rewrite Qnat_S.
    specialize (IH (a + Scorer.combined_score r)%Q). lra.
Qed.


(** The evaluation of an empty dataset divides by its length. *)
Lemma evaluate_nothing (t : Z) (params : DetectorParams) :
  evaluate_params t params [] = Raise ZeroDivisionError.
Proof. reflexivity. Qed.

End DetectorFacts.

(** ** The dataset *)

Section SplitFacts.

Variable A : Type.
Variable shuffle : list A -> list A.

Local Abbreviation split_dataset := (Dataset.split_dataset A shuffle).


End SplitFacts.

Section OneImage.

Variable Image : Type.
Variable HoughCircles : Image -> DetectorParams -> option (list (Q * Q * Q)).
Variable cvtColor_hsv : Image -> CircleClassifier.HsvImage.
Variable np_sqrt : Z -> Q.
Variable shuffle : list (Detector.ImageData Image) -> list (Detector.ImageData Image).

(** X20. A dataset of a single image is split, with the default
    ratio of 0.7, into an empty training set and a validation set of
    that image; evaluating any parameters on this training set
    raises [ZeroDivisionError]. The shuffle is any function that
    permutes its argument. *)
Theorem X20_single_image_dataset
  (Hperm : forall l, Permutation (shuffle l) l)
  (img : Detector.ImageData Image) (t : Z) (params : DetectorParams) :
  Dataset.split_dataset _ shuffle [img] Dataset.default_train_ratio
  = ([], [img]) /\
  Detector.evaluate_params Image HoughCircles cvtColor_hsv np_sqrt t params
    (fst (Dataset.split_dataset _ shuffle [img] Dataset.default_train_ratio))
  = Raise ZeroDivisionError.
Proof.
  assert (E : shuffle [img] = [img]).
  { apply Permutation_length_1_inv. apply Permutation_sym, Hperm. }
  assert (S : Dataset.split_dataset _ shuffle [img] Dataset.default_train_ratio
              = ([], [img])).
  { unfold Dataset.split_dataset. rewrite E. reflexivity. }
  split; [exact S|]. rewrite S. reflexivity.
Qed.

End OneImage.

Section LoadFacts.

Import Dataset.

Variable Image : Type.
Variable path_exists : string -> bool.
Variable imread : string -> option Image.
Variable shape : Image -> Z * Z.
Variable resize : Image -> Z -> Z -> Image.

Local Abbreviation load_image :=
  (Dataset.load_image Image path_exists imread shape resize).
Local Abbreviation load_images :=
  (Dataset.load_images Image path_exists imread shape resize).
Local Abbreviation load_dataset :=
  (Dataset.load_dataset Image path_exists imread shape resize).

Lemma image_scale_range (w h : Z) : (0 < image_scale w h <= 1)%Q.
Proof.
  unfold image_scale, target_size. cbv zeta.
  destruct (Z.ltb_spec 1280 (Z.max w h)) as [L|G].
  - assert (Hm : (0 < inject_Z (Z.max w h))%Q)
      by (unfold Qlt, inject_Z; cbn [Qnum Qden]; lia).
    split.
    + apply Qlt_shift_div_l; [exact Hm|]. rewrite Qmult_0_l. reflexivity.
    + apply Qle_shift_div_r; [exact Hm|]. rewrite Qmult_1_l.
      unfold Qle, inject_Z. cbn [Qnum Qden]. lia.
  - split; [reflexivity | apply Qle_refl].
Qed.

Lemma load_image_ok (r : RawImage) (d : Detector.ImageData Image) :
  load_image r = inl d ->
  Detector.filename d = raw_filename r /\
  Detector.poks d = raw_poks r /\
  path_exists (raw_filename r) = true /\
  (0 < Detector.scale d <= 1)%Q.
Proof.
  unfold Dataset.load_image.
  destruct (path_exists (raw_filename r)); simpl; [|discriminate].
  destruct (imread (raw_filename r)) as [img|]; [|discriminate].
  destruct (shape img) as [oh ow]. intro H. injection H as <-. simpl.
  repeat split; apply image_scale_range.
Qed.

Lemma load_images_ok (l : list RawImage) :
  forall ds,
    load_images l = inl ds ->
    map Detector.filename ds = map raw_filename l /\
    map Detector.poks ds = map raw_poks l /\
    Forall (fun r => path_exists (raw_filename r) = true) l /\
    Forall (fun d => (0 < Detector.scale d <= 1)%Q) ds.
Proof.
  induction l as [|r l IH]; intros ds H; simpl in H.
  - injection H as <-. repeat split; constructor.
  - destruct (load_image r) as [d|e] eqn:Ed; [|discriminate].
    destruct (load_images l) as [ds'|e]; [|discriminate].
    injection H as <-.
    destruct (load_image_ok r d Ed) as (Hf & Hp & He & Hs).
    destruct (IH ds' eq_refl) as (IHf & IHp & IHe & IHs).
    simpl. rewrite Hf, Hp, IHf, IHp.
    repeat split; constructor; assumption.
Qed.

Lemma load_dataset_version (file : DatasetFile) :
  version file <> Some "1.0"%string ->
  load_dataset file = inr UnsupportedVersion.
Proof.
  unfold Dataset.load_dataset. intro N.
  destruct (version file) as [v|]; [|reflexivity].
  assert (Hne : v <> "1.0"%string) by congruence.
  clear N. revert Hne.
  repeat (match goal with
          | |- context [match ?s with EmptyString => _ | String _ _ => _ end] =>
              destruct s as [|[[] [] [] [] [] [] [] []] ?]; try reflexivity
          end); congruence.
Qed.

(** X21. [load_dataset] refuses a file whose version is not "1.0",
    and a file without images, before it looks at any image file.
    When it succeeds, the version is "1.0", it returns the images of
    the file in their order, each with its file name and its
    annotations, every image file exists, and every recorded scale is
    positive and at most 1. *)
Theorem X21_load_dataset (file : DatasetFile) :
  (version file <> Some "1.0"%string ->
   load_dataset file = inr UnsupportedVersion) /\
  (version file = Some "1.0"%string ->
   images file = None \/ images file = Some [] ->
   load_dataset file = inr NoImages) /\
  (forall ds,
      load_dataset file = inl ds ->
      version file = Some "1.0"%string /\
      exists l,
        images file = Some l /\ l <> [] /\
        map Detector.filename ds = map raw_filename l /\
        map Detector.poks ds = map raw_poks l /\
        Forall (fun r => path_exists (raw_filename r) = true) l /\
        Forall (fun d => (0 < Detector.scale d <= 1)%Q) ds).
Proof.
  assert (Hv : forall v : option string,
             {v = Some "1.0"%string} + {v <> Some "1.0"%string}).
  { intro v. decide equality. apply string_dec. }
  split; [apply load_dataset_version|].
  destruct (Hv (version file)) as [E|N].
  - unfold Dataset.load_dataset. rewrite E. split.
    + intros _ [-> | ->]; reflexivity.
    + intros ds H. split; [reflexivity|].
      destruct (images file) as [[|r l]|]; try discriminate.
      exists (r :: l). split; [reflexivity|]. split; [discriminate|].
      apply (load_images_ok (r :: l) ds H).
  - split; [congruence|].
    intros ds H. rewrite (load_dataset_version file N) in H. discriminate.
Qed.

Lemma load_dataset_scales (file : DatasetFile)
  (ds : list (Detector.ImageData Image)) :
  load_dataset file = inl ds ->
  Forall (fun d => (0 < Detector.scale d <= 1)%Q) ds.
Proof.
  intro H.
  assert (Hv : forall v : option string,
             {v = Some "1.0"%string} + {v <> Some "1.0"%string}).
  { intro v. decide equality. apply string_dec. }
  destruct (Hv (version file)) as [E|N].
  - unfold Dataset.load_dataset in H. rewrite E in H.
    destruct (images file) as [[|r l]|]; try discriminate.
    apply (load_images_ok (r :: l) ds H).
  - rewrite (load_dataset_version file N) in H. discriminate.
Qed.

Lemma Qsum_le_length (l : list Q) :
  Forall (fun s => (0 < s <= 1)%Q) l -> (Qsum l <= Qnat (length l))%Q.
Proof.
  induction 1 as [|s l [_ Hs] _ IH]; simpl Qsum; simpl length.
  - apply Qle_refl.
  - rewrite Qnat_S. lra.
Qed.

Lemma scaled_up (v : Z) (m : Q) :
  0 <= v -> (0 < m <= 1)%Q -> v <= py_int (inject_Z v / m).
Proof.
  intros Hv [Hm0 Hm1]. rewrite <- (py_int_inject v) at 1.
  apply py_int_mono. apply Qle_shift_div_l; [exact Hm0|].
  assert (H0 : (0 <= inject_Z v)%Q)
    by (unfold Qle, inject_Z; cbn [Qnum Qden]; lia).
  rewrite <- (Qmult_1_r (inject_Z v)) at 2.
  rewrite !(Qmult_comm (inject_Z v)).
  apply Qmult_le_compat_r; assumption.
Qed.

(** X22. The rescaling after a successful load never shrinks: for a
    training set that is not empty and made of loaded images, and
    parameters whose [minDist], [minRadius] and [maxRadius] are not
    negative, the rescaling does not raise and each of the three
    rescaled values is at least the value it replaces. *)
Theorem X22_rescaling_after_load_grows (file : DatasetFile)
  (ds train : list (Detector.ImageData Image)) (p : DetectorParams)
  (Hload : load_dataset file = inl ds)
  (Hne : train <> []) (Hsub : incl train ds)
  (Hd : 0 <= minDist p) (Hmin : 0 <= minRadius p) (Hmax : 0 <= maxRadius p) :
  exists p',
    Rescaler.rescale p (map Detector.scale train) = Ok p' /\
    minDist p <= minDist p' /\
    minRadius p <= minRadius p' /\
    maxRadius p <= maxRadius p'.
Proof.
  assert (Hs : Forall (fun s => (0 < s <= 1)%Q) (map Detector.scale train)).
  { apply Forall_map. apply Forall_forall. intros d Hin.
    pose proof (load_dataset_scales file ds Hload) as Hall.
    rewrite Forall_forall in Hall. apply Hall, Hsub, Hin. }
  assert (Hne' : map Detector.scale train <> []).
  { destruct train; [congruence | discriminate]. }
  assert (Hpos : Forall (fun s => (0 < s)%Q) (map Detector.scale train)).
  { eapply Forall_impl; [|exact Hs]. simpl. tauto. }
  pose proof (np_mean_pos _ Hne' Hpos) as Hm0.
  assert (Hm1 : (np_mean (map Detector.scale train) <= 1)%Q).
  { unfold np_mean. apply Qle_shift_div_r.
    - apply Qnat_pos. destruct train; [congruence | simpl; lia].
    - rewrite Qmult_1_l. apply Qsum_le_length. exact Hs. }
  unfold Rescaler.rescale.
  destruct (map Detector.scale train) as [|s scales] eqn:E; [congruence|].
  rewrite !(int_div_pos _ _ Hm0). simpl bind.
  eexists. split; [reflexivity|]. cbn [minDist minRadius maxRadius].
  repeat split; apply scaled_up; try assumption; split; assumption.
Qed.

End LoadFacts.

(** ** The further properties on concrete inputs *)

Example load_example :
  Dataset.load_dataset (Z * Z) (fun _ => true) big_file (fun i => i)
    swap_resize example_file
  = inl example_loaded.
Proof. reflexivity. Qed.

Example classify_red_example :
  CircleClassifier.classify_circle red_image 50 50 10 example_params
  = "red"%string.
Proof. vm_compute. reflexivity. Qed.

Example detect_example :
  Detector.detect_poks unit two_circles always_red tt example_params 1 20
  = Ok [Scorer.mkDetection 50 50 10 "red"; Scorer.mkDetection 20 70 12 "red"].
Proof. vm_compute. reflexivity. Qed.

(** Ninety images: the float product 90 * 0.7 is just below 63. *)
Example split_index_of_ninety :
  Dataset.split_index 90 Dataset.default_train_ratio = 62.
Proof. vm_compute. reflexivity. Qed.

Lemma counter_draws_fair :
  Neighbor.fair_draws nat counter_randint counter_choice_sign.
Proof.
  split.
  - intros lo hi g H. unfold counter_randint. simpl.
    pose proof (Z.mod_pos_bound (Z.of_nat g) (hi - lo) ltac:(lia)). lia.
  - intro g. unfold counter_choice_sign. simpl.
    destruct (Nat.even g); [right | left]; reflexivity.
Qed.

Lemma example_params_in_space : Neighbor.in_space example_params.
Proof.
  split.
  - split; discriminate.
  - intro i. destruct i; simpl; lia.
Qed.

Lemma X3_witness :
  CircleClassifier.classify_circle red_image 50 50 10 example_params
  = CircleClassifier.classify_circle red_image_grey_centre 50 50 10
      example_params.
Proof.
  apply X3_only_the_ring_counts.
  - reflexivity.
  - reflexivity.
  - intros [dy dx] Hr. unfold CircleClassifier.in_ring in Hr.
    cbv zeta in Hr. cbn [fst snd] in Hr.
    change (CircleClassifier.inner_radius 10) with 5 in Hr.
    unfold red_image, red_image_grey_centre.
    cbn [CircleClassifier.pixel fst snd].
    destruct (Z.eqb_spec (50 + dy) 50) as [Ey|Ny]; [|reflexivity].
    destruct (Z.eqb_spec (50 + dx) 50) as [Ex|Nx]; [|reflexivity].
    exfalso. assert (dy = 0) by lia. assert (dx = 0) by lia. subst. lia.
Defined.

Lemma X4_witness :
  CircleClassifier.count_samples red_image (-50) 50 10 example_params
  = CircleClassifier.mkCounts 0 0 0 /\
  CircleClassifier.classify_circle red_image (-50) 50 10 example_params
  = "unknown"%string.
Proof.
  apply X4_outside_the_image. left. vm_compute. reflexivity.
Defined.

Lemma X5_witness :
  CircleClassifier.classify_circle red_image 50 50 10 example_params
  = "red"%string.
Proof.
  apply (X5_uniform_ring red_image 50 50 10 example_params true).
  - vm_compute. split; [discriminate | reflexivity].
  - vm_compute. split; [discriminate | reflexivity].
  - intros o _. reflexivity.
Defined.



Lemma X15_witness :
  (forall (n : nat) (seed_score : Optimizer.score) (src : string) (g : nat),
      let st :=
        Optimizer.local_loop minDist_evaluation nat
          (Neighbor.neighbor_params nat counter_randint counter_choice_name
             counter_choice_sign)
          n (Optimizer.local_init nat example_params seed_score src g) in
      Neighbor.in_space (Optimizer.current_params st) /\
      Neighbor.in_space (Optimizer.best_params_raw st)) /\
  (forall (local_iterations : Z) (seed_score : Optimizer.score) (src : string)
          (g : nat),
      exists p q src',
        Optimizer.refine minDist_evaluation nat
          (Neighbor.neighbor_params nat counter_randint counter_choice_name
             counter_choice_sign)
          local_iterations (Some example_params, seed_score, src) g
        = (Some p, q, src') /\
        Neighbor.in_space p).
Proof.
  apply (X15_refinement_stays_in_space minDist_evaluation nat counter_randint
           counter_choice_name counter_choice_sign example_params
           example_params_in_space).
Defined.




Lemma X20_witness :
  Dataset.split_dataset _ (@rev (Detector.ImageData unit)) one_image_dataset
    Dataset.default_train_ratio
  = ([], one_image_dataset) /\
  Detector.evaluate_params unit two_circles always_red sqrt_interp 50
    example_params
    (fst (Dataset.split_dataset _ (@rev (Detector.ImageData unit))
            one_image_dataset Dataset.default_train_ratio))
  = Raise ZeroDivisionError.
Proof.
  apply (X20_single_image_dataset unit two_circles always_red sqrt_interp
           (@rev (Detector.ImageData unit))).
  intro l. apply Permutation_sym, Permutation_rev.
Defined.

Lemma X22_witness :
  exists p',
    Rescaler.rescale example_params (map Detector.scale example_loaded)
    = Ok p' /\
    minDist example_params <= minDist p' /\
    minRadius example_params <= minRadius p' /\
    maxRadius example_params <= maxRadius p'.
Proof.
  apply (X22_rescaling_after_load_grows (Z * Z) (fun _ => true) big_file
           (fun i => i) swap_resize example_file example_loaded example_loaded
           example_params).
  - reflexivity.
  - discriminate.
  - apply incl_refl.
  - simpl. lia.
  - simpl. lia.
  - simpl. lia.
Defined.
